(** * The turtle-soup game plugin ([plugin.py]): model and properties

    A shallow embedding of the command handler [HaiTurtleSoupCommand] and of
    the module-level session store [game_states].

    - Python [str] values are lists of Unicode code points.
    - A session is the Python dict stored under a group id; its six keys can
      each be absent (the dict created lazily by [execute] is empty).
    - The handlers are coroutines that mutate [game_states], send chat
      messages and call the LLM endpoint; they live in a state-and-exception
      monad [Py] over a [world] that records the store, the sent messages and
      the HTTP requests made.
    - The network is an oracle: the n-th request of a run is answered by
      [http_post n]. *)

From Stdlib Require Import NArith ZArith QArith String Ascii List DecimalString Lia.
From stdpp Require Import base option list gmap.
Import ListNotations.

Local Open Scope N_scope.

(** ** Python strings *)

Definition char := N.
Definition str := list N.

(** Literals are written as UTF-8 text and decoded to code points. *)
Fixpoint utf8_decode (bs : list N) : str :=
  match bs with
  | [] => []
  | b0 :: r0 =>
    if b0 <? 128 then b0 :: utf8_decode r0 else
    match r0 with
    | [] => [b0]
    | b1 :: r1 =>
      if b0 <? 224 then ((b0 - 192) * 64 + (b1 - 128)) :: utf8_decode r1 else
      match r1 with
      | [] => [b0; b1]
      | b2 :: r2 =>
        if b0 <? 240
        then ((b0 - 224) * 4096 + (b1 - 128) * 64 + (b2 - 128)) :: utf8_decode r2
        else
          match r2 with
          | [] => [b0; b1; b2]
          | b3 :: r3 =>
            ((b0 - 240) * 262144 + (b1 - 128) * 4096 + (b2 - 128) * 64 + (b3 - 128))
              :: utf8_decode r3
          end
      end
    end
  end.

Definition u (s : string) : str :=
  utf8_decode (map N_of_ascii (list_ascii_of_string s)).

(** The double quote, which a literal cannot hold. *)
Definition dquote : str := [34].

(** [str.isspace] on one code point: CPython's [_PyUnicode_IsWhitespace].
    The same set is what [\s] matches in a [str] pattern. *)
Definition isspace (c : char) : bool :=
  ((9 <=? c) && (c <=? 13)) || ((28 <=? c) && (c <=? 32))
  || (c =? 133) || (c =? 160) || (c =? 5760)
  || ((8192 <=? c) && (c <=? 8202))
  || (c =? 8232) || (c =? 8233) || (c =? 8239) || (c =? 8287) || (c =? 12288).

Fixpoint lstrip (s : str) : str :=
  match s with
  | c :: r => if isspace c then lstrip r else s
  | [] => []
  end.

Definition rstrip (s : str) : str := rev (lstrip (rev s)).

(** [s.strip()] *)
Definition strip (s : str) : str := rstrip (lstrip s).

(** [str(n)] for an int. *)
Definition str_of_int (n : Z) : str :=
  map N_of_ascii (list_ascii_of_string (NilZero.string_of_int (Z.to_int n))).

(** [sep.join(l)] *)
Fixpoint join (sep : str) (l : list str) : str :=
  match l with
  | [] => []
  | [x] => x
  | x :: r => x ++ sep ++ join sep r
  end.

(** Truthiness of a string, and [a or b] on strings. *)
Definition nonempty (s : str) : bool :=
  match s with [] => false | _ => true end.

Definition str_or (a b : str) : str := if nonempty a then a else b.

(** An f-string field holding [d.get(key)] of a string-valued key: the
    value, or the text [None] when the key is absent. *)
Definition fmt (o : option str) : str := default (u "None") o.

(** [sub in s] *)
Fixpoint startswith (p s : str) : bool :=
  match p, s with
  | [], _ => true
  | a :: p', b :: s' => (a =? b) && startswith p' s'
  | _ :: _, [] => false
  end.

Fixpoint contains (sub s : str) : bool :=
  startswith sub s || match s with [] => false | _ :: s' => contains sub s' end.

(** ASCII lower-casing: what [str.lower] does on text whose only cased
    characters are ASCII letters. *)
Definition ascii_lower (s : str) : str :=
  map (fun c => if (65 <=? c) && (c <=? 90) then c + 32 else c) s.

(** ** JSON values, as [json.loads] builds them *)

#[warnings="-register-all"]
Inductive json :=
| JNull
| JBool (b : bool)
| JNum (literal : str)
| JStr (s : str)
| JArr (items : list json)
| JObj (items : list (str * json)).

(** ** Exceptions (all of them subclasses of [Exception]) *)

Inductive exn :=
| AttributeError
| TypeError
| IndexError
| KeyError
| ClientError          (* any transport failure raised by aiohttp *)
| TimeoutError         (* the 30 second total timeout elapsed *)
| JSONDecodeError.     (* [resp.json()] on a body that is not JSON *)

Inductive outcome (A : Type) :=
| Returned (a : A)
| Raised (e : exn).
Arguments Returned {A} a.
Arguments Raised {A} e.

(** ** The HTTP exchange *)

Record message := { role : str; content : str }.

Record payload := {
  p_model : str;
  p_messages : list message;
  p_temperature : Q;
  p_max_tokens : Z;
  p_stream : bool
}.

Record request := {
  url : str;
  headers : list (str * str);
  body : payload;
  timeout_total : Z
}.

(** What [session.post] and [resp.json()] can do: raise, or deliver a status
    and a body that parses as JSON or not. *)
Inductive http_outcome :=
| HttpRaise (e : exn)
| HttpResponse (status : Z) (parsed : option json).

(** ** Sessions and the world *)

(** An element of [guess_history]: [_handle_question] appends a dict,
    [_handle_guess] the bare guess string. *)
Inductive history_item :=
| ItemDict (type content : str)
| ItemStr (s : str).

Record state := {
  current_question : option str;
  current_answer : option str;
  hints_used : option Z;
  game_active : option bool;
  guess_history : option (list history_item);
  game_over : option bool
}.

(** The empty dict. *)
Definition empty_state : state :=
  {| current_question := None; current_answer := None; hints_used := None;
     game_active := None; guess_history := None; game_over := None |}.

(** Truthiness of [state.get(key)] on a boolean key. *)
Definition truthy (o : option bool) : bool := default false o.

Record world := {
  game_states : gmap str state;
  sent : list str;
  http_log : list request
}.

Definition initial_world : world :=
  {| game_states := ∅; sent := []; http_log := [] |}.

(** ** The monad of handlers *)

Definition Py (A : Type) : Type := world -> outcome A * world.

#[global] Instance Py_ret : MRet Py := fun A a w => (Returned a, w).

#[global] Instance Py_bind : MBind Py := fun A B k m w =>
  match m w with
  | (Returned a, w') => k a w'
  | (Raised e, w') => (Raised e, w')
  end.

Definition raise {A} (e : exn) : Py A := fun w => (Raised e, w).

(** [try: body  except Exception: handler] *)
Definition try_except {A} (body : Py A) (handler : exn -> Py A) : Py A :=
  fun w =>
    match body w with
    | (Returned a, w') => (Returned a, w')
    | (Raised e, w') => handler e w'
    end.

(** [await self.send_text(text)] *)
Definition send_text (text : str) : Py unit := fun w =>
  (Returned tt,
   {| game_states := game_states w; sent := sent w ++ [text]; http_log := http_log w |}).

(** [game_states.get(group_id)] *)
Definition states_get (group_id : str) : Py (option state) := fun w =>
  (Returned (game_states w !! group_id), w).

(** A method call on the result of [game_states.get(group_id)]: on [None]
    it raises [AttributeError]. *)
Definition state_of (o : option state) : Py state :=
  match o with
  | Some st => mret st
  | None => raise AttributeError
  end.

(** [game_states[group_id] = st]; also the write-back of an in-place change
    to the dict held under [group_id]. *)
Definition states_set (group_id : str) (st : state) : Py unit := fun w =>
  (Returned tt,
   {| game_states := <[group_id := st]> (game_states w); sent := sent w;
      http_log := http_log w |}).

(** ** Configuration and the command object *)

(** The values [get_config] can find; an absent one yields the default
    passed at the call. *)
Record config := {
  plugin_enabled : option bool;
  llm_api_url : option str;
  llm_api_key : option str;
  llm_model : option str;
  llm_temperature : option Q
}.

Record GroupInfo := { group_id : str }.
Record UserInfo := { user_id : str }.

Record ChatStream := {
  stream_id : option str;
  group_info : option GroupInfo;
  user_info : option UserInfo
}.

(** The [matched_groups] dict: a group that did not take part in the match
    is [None]. *)
Record groups := { g_action : option str; g_rest : option str }.

(** What [execute] reads from [self]. *)
Record command := {
  matched_groups : option groups;
  chat_stream : option ChatStream;
  message_chat_stream : option ChatStream;
  cfg : config
}.

(** The handlers return [(success, reason, intercept)]. *)
Definition reply : Type := bool * str * bool.

(** ** Action keywords and fixed texts *)

Definition kw_question : str := u "问题".
Definition kw_hint : str := u "提示".
Definition kw_clues : str := u "整理线索".
Definition kw_puzzle : str := u "汤面".
Definition kw_guess : str := u "猜谜".
Definition kw_reveal : str := u "揭秘".
Definition kw_exit : str := u "退出".
Definition kw_help : str := u "帮助".

Definition yes : str := u "是".
Definition no : str := u "不是".

Definition command_help : str :=
  u "海龟汤游戏:
/hgt 问题(生成题目)
/hgt 问题 这里加上你的问题 (向bot提问)
/hgt 提示 (获取提示)
/hgt 整理线索 (整理线索)
/hgt 汤面 (查看当前题目)
/hgt 猜谜 <答案> (猜测汤底)
/hgt 退出 (结束游戏)
/hgt 揭秘 (直接查看答案并结束游戏)
/hgt 帮助 (查看帮助)".

Definition no_answer : str := u "❌ LLM未返回回答".
Definition no_game : str := u "❌ 当前没有进行中的游戏".
Definition hints_exhausted : str := u "💡 提示已用完".
Definition game_ended : str := u "❌ 游戏已结束，请开始新游戏".
Definition unrelated : str := u "❓ 你的回答与题目无关".
Definition already_running : str :=
  u "⚠️ 当前已经有题目在进行中，请先使用 /hgt 揭秘 或 /hgt 退出 再开始新题。".

Definition system_prompt : str := u "你是一个专业海龟汤故事生成器和解释者。".

Definition prompt_question : str :=
  u "
你是一个专业的海龟汤故事生成器。
请生成一个新颖的海龟汤题目，不要使用经典题材（比如：餐馆、飞机、婚礼、海龟等）。
要求：
1. 题目简短，最好 25~50 字。
2. 题目必须是海龟汤风格的推理谜题，包含一个看似矛盾或奇怪的情境。
3. 不要在题目里包含答案。
4. 可以包含猎奇和恐怖元素(如杀人之类的)。
5. 题目结尾应该留有悬念，让人好奇真相。
6. 生成的题目应该是原创的，不要复制已有例子。

请生成一个海龟汤题目。

可以参考的海龟汤汤面and汤底（仅供参考，可以套模版或者直接搬，但是严格按照输出格式，仅输出汤面）：
1.【子的爱】
汤面：我的父母都不理我，但我还是很爱他们。
汤底：小时候我是个很听话的孩子，爸爸妈妈经常给我好吃的水果，我吃不完。他们就告诉我喜欢的东西一定要放进冰箱，这样可以保鲜，记得那时候他们工作可辛苦了，经常加班到深夜。没睡过一个好觉。于是我耍了个小聪明，在他们的水里下了安眠药。他们睡得可香了，然后我把他们放进冰箱里，从那以后我每天都会对他们说：爸爸妈妈我爱你们。现在我都六十了，他们还是那么年轻。

2.【舞】
汤面：我六岁那年，外公去世，我和亲人一起去祭奠，和姐姐玩捉迷藏，然后我对母亲说了句话把她吓昏了过去。
汤底：我去参加外公的葬礼，同行的还有比我大两岁的姐姐，我和她完捉迷藏我没有找到她没想到她躲在了纸做的房子里，当纸房子被点燃，我看见姐姐在跳舞，我对妈说，妈姐姐在那房子里面跳舞，因为姐姐被烧死了，我一直记得这个事。

3.【插进来】
汤面：他迅速的插进来，又迅速的拔出去。反反复复，我流血了。他满头大汗，露出了笑容。“啊，好舒服”
汤底：他是护士，在给我打针，针头打进血管里面会回血，因此说明成功了。流汗是因为反反复复了好几次。

4.【无罪】
汤面：" ++ dquote ++ u "她是自愿的！" ++ dquote ++ u "尸体无暴力痕迹，凶手被判无罪。" ++ dquote ++ u "我是无罪的！" ++ dquote ++ u "尸体有暴力痕迹，凶手也被判无罪。
汤底：第一幕：女儿为救他人（如器官移植）自愿牺牲，所以" ++ dquote ++ u "自愿" ++ dquote ++ u "且无暴力痕迹，他人无罪。第二幕：父亲无法接受女儿死亡真相，杀害了被判无罪的人，但法医发现此人所受暴力伤害与父亲行为不符（或父亲伪造证据），真相是女儿死于意外，父亲为报复误杀他人，故父亲也称自己" ++ dquote ++ u "无罪" ++ dquote ++ u "，但法律上仍有罪。
".

Definition prompt_answer (question : str) : str :=
  u "
题目: " ++ question ++
  u "
你是一个专业的海龟汤故事专家。请生成对应的合理的答案，可以蕴含恐怖元素（比如杀人之类的），讲究逻辑和一些现实，不要解释。150字以内。

可以参考的海龟汤汤面and汤底（仅供参考，可以套模版或者直接搬，但是严格按照输出格式，仅输出汤底）：
1.【子的爱】
汤面：我的父母都不理我，但我还是很爱他们。
汤底：小时候我是个很听话的孩子，爸爸妈妈经常给我好吃的水果，我吃不完。他们就告诉我喜欢的东西一定要放进冰箱，这样可以保鲜，记得那时候他们工作可辛苦了，经常加班到深夜。没睡过一个好觉。于是我耍了个小聪明，在他们的水里下了安眠药。他们睡得可香了，然后我把他们放进冰箱里，从那以后我每天都会对他们说：爸爸妈妈我爱你们。现在我都六十了，他们还是那么年轻。

2.【舞】
汤面：我六岁那年，外公去世，我和亲人一起去祭奠，和姐姐玩捉迷藏，然后我对母亲说了句话把她吓昏了过去。
汤底：我去参加外公的葬礼，同行的还有比我大两岁的姐姐，我和她完捉迷藏我没有找到她没想到她躲在了纸做的房子里，当纸房子被点燃，我看见姐姐在跳舞，我对妈说，妈姐姐在那房子里面跳舞，因为姐姐被烧死了，我一直记得这个事。

3.【插进来】
汤面：他迅速的插进来，又迅速的拔出去。反反复复，我流血了。他满头大汗，露出了笑容。" ++ dquote ++ u "啊，好舒服" ++ dquote ++ u "
汤底：他是实习护士，在给我打针，针头打进血管里面会回血，因此说明成功了。流汗是因为反反复复了好几次，让人紧张。

4.【无罪】
汤面：" ++ dquote ++ u "她是自愿的！" ++ dquote ++ u "尸体无暴力痕迹，凶手被判无罪。" ++ dquote ++ u "我是无罪的！" ++ dquote ++ u "尸体有暴力痕迹，凶手也被判无罪。
汤底：第一幕：女儿为救他人（如器官移植）自愿牺牲，所以" ++ dquote ++ u "自愿" ++ dquote ++ u "且无暴力痕迹，他人无罪。第二幕：父亲无法接受女儿死亡真相，杀害了被判无罪的人，但法医发现此人所受暴力伤害与父亲行为不符（或父亲伪造证据），真相是女儿死于意外，父亲为报复误杀他人，故父亲也称自己" ++ dquote ++ u "无罪" ++ dquote ++ u "，但法律上仍有罪。
".

(** ** Record updates of a session dict *)

Definition set_hints_used (n : Z) (st : state) : state :=
  {| current_question := current_question st; current_answer := current_answer st;
     hints_used := Some n; game_active := game_active st;
     guess_history := guess_history st; game_over := game_over st |}.

Definition set_game_active (b : bool) (st : state) : state :=
  {| current_question := current_question st; current_answer := current_answer st;
     hints_used := hints_used st; game_active := Some b;
     guess_history := guess_history st; game_over := game_over st |}.

Definition set_game_over (b : bool) (st : state) : state :=
  {| current_question := current_question st; current_answer := current_answer st;
     hints_used := hints_used st; game_active := game_active st;
     guess_history := guess_history st; game_over := Some b |}.

(** [state.setdefault("guess_history", []).append(item)] *)
Definition append_history (item : history_item) (st : state) : state :=
  {| current_question := current_question st; current_answer := current_answer st;
     hints_used := hints_used st; game_active := game_active st;
     guess_history := Some (default [] (guess_history st) ++ [item]);
     game_over := game_over st |}.

(** ** Reading the LLM response body *)

Fixpoint assoc (key : str) (items : list (str * json)) : option json :=
  match items with
  | [] => None
  | (k, v) :: r => if decide (k = key) then Some v else assoc key r
  end.

(** [v.get(key, dflt)]: only a dict has the method. *)
Definition json_get (key : str) (dflt : json) (v : json) : outcome json :=
  match v with
  | JObj items => Returned (default dflt (assoc key items))
  | _ => Raised AttributeError
  end.

(** [v[0]] *)
Definition json_first (v : json) : outcome json :=
  match v with
  | JArr (x :: _) => Returned x
  | JArr [] => Raised IndexError
  | JStr (c :: _) => Returned (JStr [c])
  | JStr [] => Raised IndexError
  | JObj _ => Raised KeyError
  | JNull | JBool _ | JNum _ => Raised TypeError
  end.

(** [v.strip()]: only a string has the method. *)
Definition json_strip (v : json) : outcome str :=
  match v with
  | JStr s => Returned (strip s)
  | _ => Raised AttributeError
  end.

Definition lift {A} (o : outcome A) : Py A := fun w => (o, w).

(** [await resp.json()] *)
Definition resp_json (parsed : option json) : Py json :=
  match parsed with
  | Some data => mret data
  | None => raise JSONDecodeError
  end.

(** [item["content"] for item in history] *)
Fixpoint contents (history : list history_item) : outcome (list str) :=
  match history with
  | [] => Returned []
  | ItemDict _ c :: r =>
    match contents r with
    | Returned l => Returned (c :: l)
    | Raised e => Raised e
    end
  | ItemStr _ :: _ => Raised TypeError
  end.

Section Handlers.

(** The network: the answer to the n-th request of the run. *)
Variable http_post : nat -> request -> http_outcome.

(** [str.lower], whose Unicode case table is not part of the program. *)
Variable lower : str -> str.

(** [async with session.post(api_url, headers=headers, json=payload) as resp] *)
Definition session_post (req : request) : Py (Z * option json) := fun w =>
  let w' := {| game_states := game_states w; sent := sent w;
               http_log := http_log w ++ [req] |} in
  match http_post (length (http_log w)) req with
  | HttpRaise e => (Raised e, w')
  | HttpResponse status parsed => (Returned (status, parsed), w')
  end.

(** [_call_llm_api]: one POST with a 30 second total timeout, inside
    [try ... except Exception]. The handler also prints the exception; standard
    output is not part of the world. *)
Definition _call_llm_api (prompt api_url api_key model : str) (temperature : Q)
  : Py str :=
  let headers := [(u "Content-Type", u "application/json");
                  (u "Authorization", u "Bearer " ++ api_key)] in
  let payload :=
    {| p_model := model;
       p_messages := [ {| role := u "system"; content := system_prompt |};
                       {| role := u "user"; content := prompt |} ];
       p_temperature := temperature;
       p_max_tokens := 500;
       p_stream := false |} in
  try_except
    ('(status, parsed) ← session_post
        {| url := api_url; headers := headers; body := payload; timeout_total := 30 |};
     if bool_decide (status = 200%Z) then
       data ← resp_json parsed;
       choices ← lift (json_get (u "choices") (JArr [JObj []]) data);
       first ← lift (json_first choices);
       msg ← lift (json_get (u "message") (JObj []) first);
       text ← lift (json_get (u "content") (JStr []) msg);
       lift (json_strip text)
     else mret [])
    (fun e => mret []).

(** [_start_new_game]: the guard, then the question and the answer from two
    collaborator calls, the second prompt built from the first output. *)
Definition _start_new_game (group_id api_url api_key model : str) (temperature : Q)
    (stream_id : option str) : Py reply :=
  o ← states_get group_id;
  let state := default empty_state o in
  if truthy (game_active state) && negb (truthy (game_over state)) then
    send_text already_running;;
    mret (false, u "已有进行中的游戏", true)
  else
    r1 ← _call_llm_api prompt_question api_url api_key model temperature;
    let question := strip r1 in
    r2 ← _call_llm_api (prompt_answer question) api_url api_key model temperature;
    let answer := strip r2 in
    states_set group_id
      {| current_question := Some question; current_answer := Some answer;
         hints_used := Some 0%Z; game_active := Some true;
         guess_history := Some []; game_over := Some false |};;
    send_text (u "🤔 海龟汤题目:
" ++ question ++ u "
💡 提示次数: 0/3
💡 使用 /hgt 问题 <问题> 提问，/hgt 提示 获取提示，/hgt 猜谜 <答案> 猜测汤底");;
    mret (true, u "新题目生成完成", true).

(** [_handle_question]: starts a game when none is active; otherwise records
    the question and relays the collaborator's answer. *)
Definition _handle_question (group_id question api_url api_key model : str)
    (temperature : Q) : Py reply :=
  o ← states_get group_id;
  state ← state_of o;
  if negb (truthy (game_active state)) then
    _start_new_game group_id api_url api_key model temperature None
  else
    let state := append_history (ItemDict (u "question") question) state in
    states_set group_id state;;
    let prompt := u "
你是一个海龟汤游戏专家。
当前题目: " ++ fmt (current_question state) ++ u "
当前答案: " ++ fmt (current_answer state) ++ u "
用户提问: " ++ question ++ u "
请用简短的回答回应玩家，不要透露答案。
" in
    llm_response ← _call_llm_api prompt api_url api_key model temperature;
    let reply := str_or (strip llm_response) no_answer in
    send_text (u "❓ 你问: " ++ question ++ u "
💡 回答: " ++ reply);;
    mret (true, u "问题回答完成", true).

(** [_handle_hint] *)
Definition _handle_hint (group_id api_url api_key model : str) (temperature : Q)
  : Py reply :=
  o ← states_get group_id;
  state ← state_of o;
  if negb (truthy (game_active state)) then
    send_text no_game;;
    mret (false, u "无游戏", true)
  else if (3 <=? default 0 (hints_used state))%Z then
    send_text hints_exhausted;;
    mret (false, u "提示用尽", true)
  else
    let prompt := u "
你是一个海龟汤游戏专家。
题目: " ++ fmt (current_question state) ++ u "
答案: " ++ fmt (current_answer state) ++ u "
请提供一个不直接透露答案的提示。
" in
    hint ← _call_llm_api prompt api_url api_key model temperature;
    let n := (default 0 (hints_used state) + 1)%Z in
    let state := set_hints_used n state in
    states_set group_id state;;
    send_text (u "💡 提示 (" ++ str_of_int n ++ u "/3): " ++ strip hint);;
    mret (true, u "提示完成", true).

(** [_handle_clues] *)
Definition _handle_clues (group_id api_url api_key model : str) (temperature : Q)
  : Py reply :=
  o ← states_get group_id;
  state ← state_of o;
  if negb (truthy (game_active state)) then
    send_text no_game;;
    mret (false, u "无游戏", true)
  else
    items ← lift (contents (default [] (guess_history state)));
    let guess_history := join (u "
") items in
    let prompt := u "
你是一个海龟汤游戏专家。
题目: " ++ fmt (current_question state) ++ u "
答案: " ++ fmt (current_answer state) ++ u "
请整理关键线索，简明列出，不包含答案。
已有记录:
" ++ guess_history ++ u "
" in
    clues ← _call_llm_api prompt api_url api_key model temperature;
    send_text (u "📝 线索整理:
" ++ strip clues);;
    mret (true, u "线索整理完成", true).

(** [_handle_guess]: the history is appended and written back before the
    verdict is looked at; the win branch writes [game_over] only. *)
Definition _handle_guess (group_id guess api_url api_key model : str)
    (temperature : Q) : Py reply :=
  o ← states_get group_id;
  state ← state_of o;
  if negb (truthy (game_active state)) then
    send_text no_game;;
    mret (false, u "无游戏", true)
  else if truthy (game_over state) then
    send_text game_ended;;
    mret (false, u "游戏已结束", true)
  else
    let prompt := u "
你是海龟汤游戏专家。
题目: " ++ fmt (current_question state) ++ u "
答案: " ++ fmt (current_answer state) ++ u "
用户猜测: " ++ guess ++ u "
请仅回答 是/不是/无关。
" in
    r ← _call_llm_api prompt api_url api_key model temperature;
    let llm_response := lower (strip r) in
    let state := append_history (ItemStr guess) state in
    states_set group_id state;;
    (if decide (llm_response = yes) then
       let state := set_game_over true state in
       states_set group_id state;;
       send_text (u "🎉 猜对了！答案: " ++ fmt (current_answer state))
     else if decide (llm_response = no) then
       send_text (u "❌ 猜错了！提示次数: "
                  ++ str_of_int (default 0%Z (hints_used state)) ++ u "/3")
     else
       send_text unrelated);;
    mret (true, u "猜谜完成", true).

(** [_handle_exit] *)
Definition _handle_exit (group_id : str) : Py reply :=
  states_set group_id
    {| current_question := Some []; current_answer := Some [];
       hints_used := Some 0%Z; game_active := Some false;
       guess_history := Some []; game_over := Some false |};;
  send_text (u "🛑 游戏已退出");;
  mret (true, u "退出游戏", true).

(** [execute]: the context checks, the lazy creation of the session dict,
    then the chain of branches on the action. *)
Definition execute (self : command) : Py reply :=
  let matched_groups :=
    default {| g_action := None; g_rest := None |} (matched_groups self) in
  let action := strip (default [] (g_action matched_groups)) in
  let rest_input := strip (default [] (g_rest matched_groups)) in
  let chat_stream :=
    match chat_stream self with
    | Some c => Some c
    | None => message_chat_stream self
    end in
  match chat_stream with
  | None =>
    send_text (u "❌ 无法获取聊天上下文信息");;
    mret (false, u "缺少chat_stream", true)
  | Some chat_stream =>
    let stream_id := stream_id chat_stream in
    if negb (default true (plugin_enabled (cfg self))) then
      send_text (u "❌ 插件已被禁用");;
      mret (false, u "插件未启用", true)
    else
      let api_url := default [] (llm_api_url (cfg self)) in
      let api_key := default [] (llm_api_key (cfg self)) in
      let model := default (u "gpt-3.5-turbo") (llm_model (cfg self)) in
      let temperature := default (7 # 10)%Q (llm_temperature (cfg self)) in
      if negb (nonempty api_url) || negb (nonempty api_key) then
        send_text (u "❌ LLM API 配置不完整");;
        mret (false, u "API配置错误", true)
      else
        let group_id :=
          match group_info chat_stream with
          | Some gi => group_id gi
          | None =>
            match user_info chat_stream with
            | Some ui => user_id ui
            | None => u "unknown"
            end
          end in
        o ← states_get group_id;
        let game_state := default empty_state o in
        (if o is None then states_set group_id game_state else mret tt);;
        if bool_decide (action = kw_question) && nonempty rest_input then
          _handle_question group_id rest_input api_url api_key model temperature
        else if bool_decide (action = kw_hint) then
          _handle_hint group_id api_url api_key model temperature
        else if bool_decide (action = kw_clues) then
          _handle_clues group_id api_url api_key model temperature
        else if bool_decide (action = kw_puzzle) then
          o ← states_get group_id;
          state ← state_of o;
          if negb (truthy (game_active state)) then
            send_text no_game;;
            mret (false, u "无游戏", true)
          else
            send_text (u "🍲 当前海龟汤题目:
" ++ fmt (current_question state));;
            mret (true, u "查看汤面", true)
        else if bool_decide (action = kw_guess) && nonempty rest_input then
          _handle_guess group_id rest_input api_url api_key model temperature
        else if bool_decide (action = kw_reveal) then
          if negb (truthy (game_active game_state)) then
            send_text (u "❌ 当前没有正在进行的游戏。请先使用 /hgt 生成题目。");;
            mret (false, u "无游戏", true)
          else
            let answer := default (u "无答案") (current_answer game_state) in
            send_text (u "🔓 当前海龟汤答案是:
" ++ answer ++ u "
游戏结束。");;
            let game_state := set_game_over true (set_game_active false game_state) in
            states_set group_id game_state;;
            mret (true, u "已揭秘", true)
        else if bool_decide (action = kw_exit) then
          _handle_exit group_id
        else if bool_decide (action = kw_help) then
          send_text command_help;;
          mret (true, u "显示帮助", true)
        else
          _start_new_game group_id api_url api_key model temperature stream_id
  end.

End Handlers.

(** ** The command pattern

    [command_pattern] is a regular expression; the host applies it with
    [re.match] and passes [groupdict()] to [execute] as [matched_groups].
    The matcher below is a backtracking one in continuation-passing style,
    greedy as [re] is; the two flags are those that change the meaning of
    this pattern. *)

Inductive regex :=
| RChar (c : char)                    (* a literal character *)
| RSpace                              (* \s *)
| RDot                                (* . *)
| RBegin                              (* ^ *)
| REnd                                (* $ *)
| REmpty
| RSeq (r1 r2 : regex)
| RAlt (r1 r2 : regex)                (* r1|r2 *)
| RPlus (r : regex)                   (* r+ *)
| ROpt (r : regex)                    (* r? *)
| RGroup (name : str) (r : regex).    (* (?P<name>r) *)

Record flags := { ignorecase : bool; dotall : bool }.

Definition captures := list (str * str).

Definition fold_case (c : char) : char :=
  if (65 <=? c) && (c <=? 90) then c + 32 else c.

Definition char_matches (f : flags) (c x : char) : bool :=
  if ignorecase f then fold_case c =? fold_case x else c =? x.

Fixpoint rmatch (f : flags) (whole : str) (r : regex) (s : str) (caps : captures)
    (k : str -> captures -> option captures) : option captures :=
  match r with
  | RChar c =>
    match s with
    | x :: s' => if char_matches f c x then k s' caps else None
    | [] => None
    end
  | RSpace =>
    match s with
    | x :: s' => if isspace x then k s' caps else None
    | [] => None
    end
  | RDot =>
    match s with
    | x :: s' => if dotall f || negb (x =? 10) then k s' caps else None
    | [] => None
    end
  | RBegin => if (length s =? length whole)%nat then k s caps else None
  | REnd =>
    match s with
    | [] => k s caps
    | [10] => k s caps
    | _ => None
    end
  | REmpty => k s caps
  | RSeq r1 r2 => rmatch f whole r1 s caps (fun s' caps' => rmatch f whole r2 s' caps' k)
  | RAlt r1 r2 =>
    match rmatch f whole r1 s caps k with
    | Some c => Some c
    | None => rmatch f whole r2 s caps k
    end
  | RPlus r1 =>
    (fix loop (fuel : nat) (s : str) (caps : captures) : option captures :=
       rmatch f whole r1 s caps (fun s' caps' =>
         match fuel with
         | S fuel' =>
           if (length s' <? length s)%nat then
             match loop fuel' s' caps' with
             | Some c => Some c
             | None => k s' caps'
             end
           else k s' caps'
         | O => k s' caps'
         end)) (length s) s caps
  | ROpt r1 =>
    match rmatch f whole r1 s caps k with
    | Some c => Some c
    | None => k s caps
    end
  | RGroup name r1 =>
    rmatch f whole r1 s caps (fun s' caps' =>
      k s' ((name, take (length s - length s') s) :: caps'))
  end.

(** [re.match(pattern, text)] *)
Definition re_match (f : flags) (r : regex) (text : str) : option captures :=
  rmatch f text r text [] (fun _ caps => Some caps).

(** [m.groupdict()[name]] *)
Fixpoint group (name : str) (caps : captures) : option str :=
  match caps with
  | [] => None
  | (n, v) :: r => if decide (n = name) then Some v else group name r
  end.

Definition literal (s : str) : regex := foldr (fun c r => RSeq (RChar c) r) REmpty s.

Definition one_of (l : list str) : regex :=
  match l with
  | [] => REmpty
  | x :: r => foldl (fun acc y => RAlt acc (literal y)) (literal x) r
  end.

(** [^/hgt(?:\s+(?P<action>(?:提示|问题|整理线索|猜谜|退出|帮助|揭秘|汤面)))(?:\s+(?P<rest>.+))?$] *)
Definition command_pattern : regex :=
  RSeq RBegin
 (RSeq (literal (u "/hgt"))
 (RSeq (RSeq (RPlus RSpace)
             (RGroup (u "action")
                (one_of [kw_hint; kw_question; kw_clues; kw_guess; kw_exit;
                         kw_help; kw_reveal; kw_puzzle])))
 (RSeq (ROpt (RSeq (RPlus RSpace) (RGroup (u "rest") (RPlus RDot))))
       REnd))).

(** The match object's [groupdict()] as [execute] reads it. *)
Definition groupdict (caps : captures) : groups :=
  {| g_action := group (u "action") caps; g_rest := group (u "rest") caps |}.

(** Modelled from the spec: the host framework's dispatch, which is not part
    of the plugin. Text that does not match the pattern is not consumed
    (no reply, nothing changed); on a match [execute] runs with the match's
    groups. *)
Definition on_message (http_post : nat -> request -> http_outcome)
    (lower : str -> str) (f : flags) (self : command) (text : str)
  : Py (option reply) :=
  match re_match f command_pattern text with
  | None => mret None
  | Some caps =>
    r ← execute http_post lower
          {| matched_groups := Some (groupdict caps);
             chat_stream := chat_stream self;
             message_chat_stream := message_chat_stream self;
             cfg := cfg self |};
    mret (Some r)
  end.

(** ** Vocabulary of the statements *)

(** The request [_call_llm_api] posts. *)
Definition llm_request (prompt api_url api_key model : str) (temperature : Q)
  : request :=
  {| url := api_url;
     headers := [(u "Content-Type", u "application/json");
                 (u "Authorization", u "Bearer " ++ api_key)];
     body := {| p_model := model;
                p_messages := [ {| role := u "system"; content := system_prompt |};
                                {| role := u "user"; content := prompt |} ];
                p_temperature := temperature;
                p_max_tokens := 500;
                p_stream := false |};
     timeout_total := 30 |}.

(** [data.get("choices",[{}])[0].get("message",{}).get("content","").strip()] *)
Definition read_content (data : json) : outcome str :=
  match json_get (u "choices") (JArr [JObj []]) data with
  | Raised e => Raised e
  | Returned choices =>
    match json_first choices with
    | Raised e => Raised e
    | Returned first =>
      match json_get (u "message") (JObj []) first with
      | Raised e => Raised e
      | Returned msg =>
        match json_get (u "content") (JStr []) msg with
        | Raised e => Raised e
        | Returned text => json_strip text
        end
      end
    end
  end.

(** The collaborator's output: what [_call_llm_api] returns for a given
    outcome of the HTTP exchange. *)
Definition llm_text (o : http_outcome) : str :=
  match o with
  | HttpRaise _ => []
  | HttpResponse status parsed =>
    if bool_decide (status = 200%Z) then
      match parsed with
      | None => []
      | Some data =>
        match read_content data with
        | Returned s => s
        | Raised _ => []
        end
      end
    else []
  end.

(** The world after one more request, one more message, one store write. *)
Definition logged (req : request) (w : world) : world :=
  {| game_states := game_states w; sent := sent w; http_log := http_log w ++ [req] |}.

Definition said (text : str) (w : world) : world :=
  {| game_states := game_states w; sent := sent w ++ [text]; http_log := http_log w |}.

Definition stored (group_id : str) (st : state) (w : world) : world :=
  {| game_states := <[group_id := st]> (game_states w); sent := sent w;
     http_log := http_log w |}.

(** The session [_start_new_game] stores, and the one [_handle_exit] stores. *)
Definition new_game (question answer : str) : state :=
  {| current_question := Some question; current_answer := Some answer;
     hints_used := Some 0%Z; game_active := Some true;
     guess_history := Some []; game_over := Some false |}.

Definition exited : state :=
  {| current_question := Some []; current_answer := Some [];
     hints_used := Some 0%Z; game_active := Some false;
     guess_history := Some []; game_over := Some false |}.

(** InProgress: active and not over. *)
Definition in_progress (st : state) : bool :=
  truthy (game_active st) && negb (truthy (game_over st)).

(** A response body of the expected shape carrying [text]. *)
Definition chat_completion (text : str) : json :=
  JObj [(u "choices",
         JArr [JObj [(u "message", JObj [(u "content", JStr text)])]])].

(** Three networks: one that is down, one that answers 500, one that always
    answers [text]. *)
Definition net_down : nat -> request -> http_outcome :=
  fun _ _ => HttpRaise ClientError.

Definition net_error : nat -> request -> http_outcome :=
  fun _ _ => HttpResponse 500 None.

Definition net_says (text : str) : nat -> request -> http_outcome :=
  fun _ _ => HttpResponse 200 (Some (chat_completion text)).

(** A group chat [g1] with a complete configuration. *)
Definition g1 : str := u "g1".

Definition sample_url : str := u "https://api.siliconflow.cn/v1/chat/completions".
Definition sample_key : str := u "YOUR_KEY".
Definition sample_model : str := u "gpt-3.5-turbo".

Definition sample_cfg : config :=
  {| plugin_enabled := Some true;
     llm_api_url := Some sample_url;
     llm_api_key := Some sample_key;
     llm_model := Some sample_model;
     llm_temperature := Some (7 # 10)%Q |}.

Definition sample_stream : ChatStream :=
  {| stream_id := Some (u "s1");
     group_info := Some {| group_id := g1 |};
     user_info := None |}.

Definition sample_command (action rest : option str) : command :=
  {| matched_groups := Some {| g_action := action; g_rest := rest |};
     chat_stream := Some sample_stream;
     message_chat_stream := None;
     cfg := sample_cfg |}.

(** A world in which [g1] has the game [question]/[answer] with [n] hints
    used. *)
Definition playing (question answer : str) (n : Z) : world :=
  {| game_states := {[ g1 := set_hints_used n (new_game question answer) ]};
     sent := []; http_log := [] |}.

(** The group id [execute] derives from the chat stream. *)
Definition group_id_for (cs : ChatStream) : str :=
  match group_info cs with
  | Some gi => group_id gi
  | None =>
    match user_info cs with
    | Some ui => user_id ui
    | None => u "unknown"
    end
  end.

(** The lazy creation of the session dict at the start of [execute]. *)
Definition ensured (group_id : str) (w : world) : world :=
  match game_states w !! group_id with
  | Some _ => w
  | None => stored group_id empty_state w
  end.

(** The context checks of [execute] pass and yield these values. *)
Definition context_ok (self : command) (cs : ChatStream)
    (api_url api_key : str) : Prop :=
  match chat_stream self with
  | Some c => Some c
  | None => message_chat_stream self
  end = Some cs
  /\ default true (plugin_enabled (cfg self)) = true
  /\ default [] (llm_api_url (cfg self)) = api_url /\ api_url <> []
  /\ default [] (llm_api_key (cfg self)) = api_key /\ api_key <> [].

Definition action_of (self : command) : str :=
  strip (default [] (g_action (default {| g_action := None; g_rest := None |}
                                       (matched_groups self)))).

Definition rest_of (self : command) : str :=
  strip (default [] (g_rest (default {| g_action := None; g_rest := None |}
                                     (matched_groups self)))).

Definition model_of (self : command) : str :=
  default (u "gpt-3.5-turbo") (llm_model (cfg self)).

Definition temperature_of (self : command) : Q :=
  default (7 # 10)%Q (llm_temperature (cfg self)).

(** The body has the expected shape [{"choices": [{"message": {"content":
    text}}, ...]}] and carries [text]. *)
Definition content_of (data : json) : option str :=
  match data with
  | JObj items =>
    match assoc (u "choices") items with
    | Some (JArr (JObj first :: _)) =>
      match assoc (u "message") first with
      | Some (JObj msg) =>
        match assoc (u "content") msg with
        | Some (JStr s) => Some s
        | _ => None
        end
      | _ => None
      end
    | _ => None
    end
  | _ => None
  end.

(** Session invariants. *)
Definition hints_within_cap (st : state) : Prop :=
  (default 0 (hints_used st) <= 3)%Z.

Definition active_has_puzzle (st : state) : Prop :=
  truthy (game_active st) = true ->
  exists q a, current_question st = Some q /\ q <> []
              /\ current_answer st = Some a /\ a <> [].

Definition store_inv (P : state -> Prop) (w : world) : Prop :=
  forall group_id st, game_states w !! group_id = Some st -> P st.

Section Vocabulary.

Variable http_post : nat -> request -> http_outcome.
Variable lower : str -> str.

(** The n-th request of the run gets the collaborator output [out],
    whatever is asked. *)
Definition answers_at (n : nat) (out : str) : Prop :=
  forall req, llm_text (http_post n req) = out.

(** An active session's question and answer are stripped collaborator
    outputs. *)
Definition puzzle_from_collaborator (st : state) : Prop :=
  truthy (game_active st) = true ->
  exists n1 req1 n2 req2,
    current_question st = Some (strip (llm_text (http_post n1 req1)))
    /\ current_answer st = Some (strip (llm_text (http_post n2 req2))).

(** Worlds reachable from the empty store by running commands. *)
Inductive reachable : world -> Prop :=
| reach_init : reachable initial_world
| reach_execute w self :
    reachable w -> reachable (execute http_post lower self w).2.

(** The writes the handlers make to one session: from what is stored under a
    group id (if anything) to what is stored next. *)
Inductive session_step : option state -> state -> Prop :=
| step_create : session_step None empty_state
| step_start o n1 req1 n2 req2 :
    in_progress (default empty_state o) = false ->
    session_step o (new_game (strip (llm_text (http_post n1 req1)))
                             (strip (llm_text (http_post n2 req2))))
| step_ask st question :
    truthy (game_active st) = true ->
    session_step (Some st) (append_history (ItemDict (u "question") question) st)
| step_hint st :
    truthy (game_active st) = true ->
    (default 0 (hints_used st) < 3)%Z ->
    session_step (Some st) (set_hints_used (default 0 (hints_used st) + 1)%Z st)
| step_guess st guess :
    in_progress st = true ->
    session_step (Some st) (append_history (ItemStr guess) st)
| step_win st :
    in_progress st = true ->
    session_step (Some st) (set_game_over true st)
| step_reveal st :
    truthy (game_active st) = true ->
    session_step (Some st) (set_game_over true (set_game_active false st))
| step_exit o : session_step o exited.

Inductive store_steps : gmap str state -> gmap str state -> Prop :=
| steps_done m : store_steps m m
| steps_write m group_id st m' :
    session_step (m !! group_id) st ->
    store_steps (<[group_id := st]> m) m' ->
    store_steps m m'.

End Vocabulary.

(** ** What a regular expression matches

    [matches f whole r s caps s' caps']: [r] can consume a prefix of [s],
    leaving [s'], and extend the captures [caps] to [caps']. The relation
    says which matches exist, not which one the greedy search finds. *)

Inductive matches (f : flags) (whole : str)
  : regex -> str -> captures -> str -> captures -> Prop :=
| m_char c x s caps :
    char_matches f c x = true -> matches f whole (RChar c) (x :: s) caps s caps
| m_space x s caps :
    isspace x = true -> matches f whole RSpace (x :: s) caps s caps
| m_dot x s caps :
    dotall f || negb (x =? 10) = true -> matches f whole RDot (x :: s) caps s caps
| m_begin s caps :
    length s = length whole -> matches f whole RBegin s caps s caps
| m_end s caps :
    s = [] \/ s = [10] -> matches f whole REnd s caps s caps
| m_empty s caps : matches f whole REmpty s caps s caps
| m_seq r1 r2 s caps s1 caps1 s2 caps2 :
    matches f whole r1 s caps s1 caps1 ->
    matches f whole r2 s1 caps1 s2 caps2 ->
    matches f whole (RSeq r1 r2) s caps s2 caps2
| m_alt_l r1 r2 s caps s' caps' :
    matches f whole r1 s caps s' caps' -> matches f whole (RAlt r1 r2) s caps s' caps'
| m_alt_r r1 r2 s caps s' caps' :
    matches f whole r2 s caps s' caps' -> matches f whole (RAlt r1 r2) s caps s' caps'
| m_plus_once r s caps s' caps' :
    matches f whole r s caps s' caps' -> matches f whole (RPlus r) s caps s' caps'
| m_plus_more r s caps s1 caps1 s2 caps2 :
    matches f whole r s caps s1 caps1 ->
    matches f whole (RPlus r) s1 caps1 s2 caps2 ->
    matches f whole (RPlus r) s caps s2 caps2
| m_opt_some r s caps s' caps' :
    matches f whole r s caps s' caps' -> matches f whole (ROpt r) s caps s' caps'
| m_opt_none r s caps : matches f whole (ROpt r) s caps s caps
| m_group name r s caps s' caps' :
    matches f whole r s caps s' caps' ->
    matches f whole (RGroup name r) s caps s'
      ((name, take (length s - length s') s) :: caps').

(** The action keywords of the pattern. *)
Definition keywords : list str :=
  [kw_hint; kw_question; kw_clues; kw_guess; kw_exit; kw_help; kw_reveal; kw_puzzle].

(** The expression has no capturing group. *)
Fixpoint group_free (r : regex) : bool :=
  match r with
  | RChar _ | RSpace | RDot | RBegin | REnd | REmpty => true
  | RSeq r1 r2 | RAlt r1 r2 => group_free r1 && group_free r2
  | RPlus r1 | ROpt r1 => group_free r1
  | RGroup _ _ => false
  end.

(** What one command may do to the world when it acts for the group [g]:
    other groups' sessions are as before, the group's session is not
    removed, at most two requests are posted, and a command that returns
    has sent exactly one message and sets the intercept flag, while one that
    raises has sent none. *)
Definition footprint (g : str) (w : world) (result : outcome reply * world) : Prop :=
  (forall g', g' <> g -> game_states result.2 !! g' = game_states w !! g')
  /\ (is_Some (game_states w !! g) -> is_Some (game_states result.2 !! g))
  /\ (exists reqs, http_log result.2 = http_log w ++ reqs /\ (length reqs <= 2)%nat)
  /\ match result.1 with
     | Returned (_, _, intercept) =>
       intercept = true /\ exists text, sent result.2 = sent w ++ [text]
     | Raised _ => sent result.2 = sent w
     end.

(** The chat stream [execute] works with: [self.chat_stream], or else
    [self.message.chat_stream]. *)
Definition stream_of (self : command) : option ChatStream :=
  match chat_stream self with
  | Some c => Some c
  | None => message_chat_stream self
  end.

(** How the text after the keyword can end, and what the rest group then
    holds. *)
Inductive argument_shape (f : flags) : str -> option str -> Prop :=
| no_argument tail :
    tail = [] \/ tail = [10] -> argument_shape f tail None
| with_argument ws v e :
    ws <> [] -> Forall (fun x => isspace x = true) ws ->
    v <> [] -> Forall (fun x => dotall f || negb (x =? 10) = true) v ->
    e = [] \/ e = [10] ->
    argument_shape f (ws ++ v ++ e) (Some v).

(** The prompts the handlers build from a session. *)
Definition question_prompt (st : state) (question : str) : str :=
  u "
你是一个海龟汤游戏专家。
当前题目: " ++ fmt (current_question st) ++ u "
当前答案: " ++ fmt (current_answer st) ++ u "
用户提问: " ++ question ++ u "
请用简短的回答回应玩家，不要透露答案。
".

Definition hint_prompt (st : state) : str :=
  u "
你是一个海龟汤游戏专家。
题目: " ++ fmt (current_question st) ++ u "
答案: " ++ fmt (current_answer st) ++ u "
请提供一个不直接透露答案的提示。
".

Definition clues_prompt (st : state) (guess_history : str) : str :=
  u "
你是一个海龟汤游戏专家。
题目: " ++ fmt (current_question st) ++ u "
答案: " ++ fmt (current_answer st) ++ u "
请整理关键线索，简明列出，不包含答案。
已有记录:
" ++ guess_history ++ u "
".

Definition guess_prompt (st : state) (guess : str) : str :=
  u "
你是海龟汤游戏专家。
题目: " ++ fmt (current_question st) ++ u "
答案: " ++ fmt (current_answer st) ++ u "
用户猜测: " ++ guess ++ u "
请仅回答 是/不是/无关。
".

(** A history entry made by a question, and its text. *)
Definition is_question_entry (item : history_item) : Prop :=
  match item with ItemDict _ _ => True | ItemStr _ => False end.

Definition entry_text (item : history_item) : str :=
  match item with ItemDict _ c => c | ItemStr s => s end.

(** The shapes a stored session can have: the empty dict, the reset dict,
    or a full dict holding a puzzle with between 0 and 3 hints used, either
    active or revealed (not active, over). *)
Inductive session_shape : state -> Prop :=
| shape_empty : session_shape empty_state
| shape_exited : session_shape exited
| shape_game question answer n history active over :
    (0 <= n <= 3)%Z ->
    (active = true \/ over = true) ->
    session_shape
      {| current_question := Some question; current_answer := Some answer;
         hints_used := Some n; game_active := Some active;
         guess_history := Some history; game_over := Some over |}.

(** * Properties *)

(** Unfolding of the monad's operations, leaving texts and sessions alone. *)
Ltac py_unfold :=
  cbv beta iota zeta delta [mbind mret Py_bind Py_ret raise try_except send_text
    states_get states_set state_of lift resp_json session_post].

Ltac json_simpl :=
  cbn [json_get json_first json_strip default from_option id].

Ltac world_simpl :=
  cbn [game_states sent http_log logged said stored fst snd].

(** ** Strings *)

Lemma startswith_app sub q : startswith sub (sub ++ q) = true.
Proof.
  induction sub as [| c sub IH]; [reflexivity |].
  cbn [startswith app]. rewrite N.eqb_refl. exact IH.
Qed.

Lemma contains_here sub s : startswith sub s = true -> contains sub s = true.
Proof. intros H. destruct s; cbn [contains]; rewrite H; reflexivity. Qed.

Lemma contains_app p sub q : contains sub (p ++ sub ++ q) = true.
Proof.
  induction p as [| c p IH].
  - cbn [app]. apply contains_here, startswith_app.
  - cbn [app contains]. rewrite IH. apply orb_true_r.
Qed.

Lemma contains_suffix p sub : contains sub (p ++ sub) = true.
Proof. rewrite <- (app_nil_r sub) at 2. apply contains_app. Qed.

Lemma nonempty_true s : s <> [] -> nonempty s = true.
Proof. destruct s; [congruence | reflexivity]. Qed.

(** ** Sessions *)

Lemma truthy_true o : truthy o = true -> o = Some true.
Proof. destruct o as [[|]|]; cbn; congruence. Qed.

Lemma in_progress_inv st :
  in_progress st = true ->
  truthy (game_active st) = true /\ truthy (game_over st) = false.
Proof.
  unfold in_progress. intros H. apply andb_prop in H as [H1 H2].
  split; [exact H1 |]. destruct (truthy (game_over st)); [discriminate | reflexivity].
Qed.

Lemma yes_not_no : yes <> no.
Proof. discriminate. Qed.

(** ** The matcher finds only matches *)

Lemma rmatch_sound f whole r :
  forall s caps k res,
    rmatch f whole r s caps k = Some res ->
    exists s' caps', matches f whole r s caps s' caps' /\ k s' caps' = Some res.
Proof.
  induction r as [c | | | | | | r1 IH1 r2 IH2 | r1 IH1 r2 IH2 | r1 IH1 | r1 IH1 | name r1 IH1];
    intros s caps k res H; cbn [rmatch] in H.
  - destruct s as [| x s]; [discriminate |].
    destruct (char_matches f c x) eqn:E; [| discriminate].
    eauto using matches.
  - destruct s as [| x s]; [discriminate |].
    destruct (isspace x) eqn:E; [| discriminate].
    eauto using matches.
  - destruct s as [| x s]; [discriminate |].
    destruct (dotall f || negb (x =? 10)) eqn:E; [| discriminate].
    eauto using matches.
  - destruct (Nat.eqb_spec (length s) (length whole)); [| discriminate].
    eauto using matches.
  - destruct (decide (s = [])) as [-> | Hn];
      [eexists _, _; split; [apply m_end; left; reflexivity | exact H] |].
    destruct (decide (s = [10])) as [-> | Hn'];
      [eexists _, _; split; [apply m_end; right; reflexivity | exact H] |].
    exfalso. destruct s as [| x s]; [congruence |].
    destruct x as [| p]; [discriminate |].
    do 4 (destruct p as [p | p |]; try discriminate).
    destruct s; [congruence | discriminate].
  - eauto using matches.
  - apply IH1 in H as (s1 & caps1 & H1 & H).
    apply IH2 in H as (s2 & caps2 & H2 & H).
    eauto using matches.
  - destruct (rmatch f whole r1 s caps k) eqn:E.
    + injection H as ->. apply IH1 in E as (s' & caps' & H1 & H). eauto using matches.
    + apply IH2 in H as (s' & caps' & H2 & H). eauto using matches.
  - match type of H with
    | ?loop (length s) s caps = Some res =>
      assert (Hloop : forall fuel s caps,
                 loop fuel s caps = Some res ->
                 exists s' caps',
                   matches f whole (RPlus r1) s caps s' caps' /\ k s' caps' = Some res)
    end; [| exact (Hloop _ _ _ H)].
    clear s caps H. intros fuel.
    induction fuel as [| fuel IHf]; intros s caps H.
    + apply IH1 in H as (s' & caps' & H1 & H). eauto using matches.
    + apply IH1 in H as (s1 & caps1 & H1 & H).
      destruct (length s1 <? length s)%nat; [| eauto using matches].
      match type of H with
      | match ?t with _ => _ end = _ => destruct t eqn:E
      end; [| eauto using matches].
      injection H as ->. apply IHf in E as (s2 & caps2 & H2 & H).
      eauto using matches.
  - destruct (rmatch f whole r1 s caps k) eqn:E.
    + injection H as ->. apply IH1 in E as (s' & caps' & H1 & H). eauto using matches.
    + eauto using matches.
  - apply IH1 in H as (s' & caps' & H1 & H). eauto using matches.
Qed.

Lemma matches_consumes f whole r s caps s' caps' :
  matches f whole r s caps s' caps' -> exists pre, s = pre ++ s'.
Proof.
  induction 1 as
    [c x s caps _ | x s caps _ | x s caps _ | s caps _ | s caps _ | s caps
    | r1 r2 s caps s1 caps1 s2 caps2 _ [p1 ->] _ [p2 ->]
    | r1 r2 s caps s' caps' _ IH | r1 r2 s caps s' caps' _ IH
    | r s caps s' caps' _ IH
    | r s caps s1 caps1 s2 caps2 _ [p1 ->] _ [p2 ->]
    | r s caps s' caps' _ IH | r s caps
    | name r s caps s' caps' _ IH];
    try (exists [x]; reflexivity); try (exists []; reflexivity); try exact IH.
  - exists (p1 ++ p2). apply app_assoc.
  - exists (p1 ++ p2). apply app_assoc.
Qed.

Lemma matches_group_free f whole r s caps s' caps' :
  matches f whole r s caps s' caps' -> group_free r = true -> caps' = caps.
Proof.
  induction 1; cbn [group_free]; intros Hg;
    try reflexivity; try discriminate;
    try (apply andb_prop in Hg as [Hg1 Hg2]); auto.
  - rewrite IHmatches2, IHmatches1; auto.
  - rewrite IHmatches2, IHmatches1; auto.
Qed.

Lemma literal_group_free l : group_free (literal l) = true.
Proof. induction l as [| c l IH]; [reflexivity | exact IH]. Qed.

(** Outside the ASCII letters a pattern character matches only itself,
    with or without [IGNORECASE]. *)
Lemma char_matches_exact f c x : 122 < c -> char_matches f c x = true -> x = c.
Proof.
  unfold char_matches, fold_case. intros Hc H.
  destruct (ignorecase f); [| symmetry; apply N.eqb_eq, H].
  apply N.eqb_eq in H.
  destruct (N.leb_spec 65 c), (N.leb_spec c 90), (N.leb_spec 65 x), (N.leb_spec x 90);
    cbn [andb] in H; lia.
Qed.

Lemma matches_literal f whole l s caps s' caps' :
  matches f whole (literal l) s caps s' caps' ->
  exists pre, s = pre ++ s' /\ Forall2 (fun c x => char_matches f c x = true) l pre.
Proof.
  revert s caps. induction l as [| c l IH]; intros s caps H; cbn [literal foldr] in H.
  - inversion H; subst. exists []. split; [reflexivity | constructor].
  - inversion H as [| | | | | | r1 r2 s0 caps0 s1 caps1 s2 caps2 Hc Hl | | | | | | |]; subst.
    inversion Hc; subst. apply IH in Hl as (pre & -> & Hpre).
    exists (x :: pre). split; [reflexivity | constructor; assumption].
Qed.

Lemma matches_exact_literal f whole l s caps s' caps' :
  Forall (fun c => 122 < c) l ->
  matches f whole (literal l) s caps s' caps' -> s = l ++ s'.
Proof.
  intros Hl H. apply matches_literal in H as (pre & -> & Hpre). f_equal.
  induction Hpre as [| c x l pre Hcx _ IH]; [reflexivity |].
  inversion Hl; subst. rewrite (char_matches_exact f c x), IH by assumption.
  reflexivity.
Qed.

Lemma matches_alternatives f whole r0 l s caps s' caps' :
  matches f whole (foldl (fun acc y => RAlt acc (literal y)) r0 l) s caps s' caps' ->
  matches f whole r0 s caps s' caps'
  \/ exists kw, kw ∈ l /\ matches f whole (literal kw) s caps s' caps'.
Proof.
  revert r0. induction l as [| y l IH]; intros r0 H; cbn [foldl] in H.
  - left. exact H.
  - apply IH in H as [H | (kw & Hin & H)].
    + inversion H; subst; [left; assumption |].
      right. exists y. split; [apply list_elem_of_here | assumption].
    + right. exists kw. split; [apply list_elem_of_further, Hin | exact H].
Qed.

Lemma matches_one_of f whole x l s caps s' caps' :
  matches f whole (one_of (x :: l)) s caps s' caps' ->
  exists kw, kw ∈ x :: l /\ matches f whole (literal kw) s caps s' caps'.
Proof.
  cbn [one_of]. intros H. apply matches_alternatives in H as [H | (kw & Hin & H)].
  - exists x. split; [apply list_elem_of_here | exact H].
  - exists kw. split; [apply list_elem_of_further, Hin | exact H].
Qed.

Lemma one_of_group_free l : group_free (one_of l) = true.
Proof.
  destruct l as [| x l]; [reflexivity |]. cbn [one_of].
  assert (H : forall r0, group_free r0 = true ->
                group_free (foldl (fun acc y => RAlt acc (literal y)) r0 l) = true).
  { induction l as [| y l IH]; intros r0 H0; [exact H0 |].
    cbn [foldl]. apply IH. cbn [group_free]. rewrite H0. apply literal_group_free. }
  apply H, literal_group_free.
Qed.

Lemma keywords_are_ideographs kw :
  kw ∈ keywords -> Forall (fun c => 122 < c) kw.
Proof.
  unfold keywords. rewrite !elem_of_cons, elem_of_nil.
  intros H. repeat (destruct H as [-> | H]); [.. | destruct H];
    repeat constructor.
Qed.

Lemma take_consumed (pre s' : str) :
  take (length (pre ++ s') - length s') (pre ++ s') = pre.
Proof.
  rewrite length_app, Nat.add_sub. apply take_app_length.
Qed.

(** The shape of [command_pattern] with its prefix and its alternatives
    left open: a match consumes the prefix, white space and one alternative,
    which is the action captured. *)
Lemma matches_command_shape f whole prefix alts action rest text s' caps' :
  group_free prefix = true ->
  group_free alts = true ->
  matches f whole
    (RSeq RBegin
    (RSeq prefix
    (RSeq (RSeq (RPlus RSpace) (RGroup action alts))
    (RSeq (ROpt (RSeq (RPlus RSpace) (RGroup rest (RPlus RDot)))) REnd))))
    text [] s' caps' ->
  exists p ws a tail,
    text = p ++ ws ++ a ++ tail
    /\ matches f whole alts (a ++ tail) [] tail []
    /\ (caps' = [(action, a)] \/ exists v, caps' = [(rest, v); (action, a)]).
Proof.
  intros Hprefix_free Halts_free H.
  inversion H as [| | | | | | ? ? ? ? s1 c1 ? ? Hbegin H1 | | | | | | |]; subst; clear H.
  inversion Hbegin; subst; clear Hbegin.
  inversion H1 as [| | | | | | ? ? ? ? s2 c2 ? ? Hprefix H2 | | | | | | |]; subst; clear H1.
  pose proof (matches_group_free _ _ _ _ _ _ _ Hprefix Hprefix_free) as ->.
  apply matches_consumes in Hprefix as [p ->].
  inversion H2 as [| | | | | | ? ? ? ? s3 c3 ? ? Hact H3 | | | | | | |]; subst; clear H2.
  inversion Hact as [| | | | | | ? ? ? ? s4 c4 ? ? Hws Hgrp | | | | | | |]; subst; clear Hact.
  pose proof (matches_group_free _ _ _ _ _ _ _ Hws eq_refl) as ->.
  apply matches_consumes in Hws as [ws ->].
  inversion Hgrp as [| | | | | | | | | | | | | ? ? ? ? ? c5 Halt]; subst; clear Hgrp.
  pose proof (matches_group_free _ _ _ _ _ _ _ Halt Halts_free) as ->.
  destruct (matches_consumes _ _ _ _ _ _ _ Halt) as [a ->].
  rewrite take_consumed in H3.
  exists p, ws, a, s3. split; [reflexivity |]. split; [exact Halt |].
  inversion H3 as [| | | | | | ? ? ? ? s6 c6 ? ? Hopt Hend | | | | | | |]; subst; clear H3.
  inversion Hend; subst; clear Hend.
  inversion Hopt as [| | | | | | | | | | | ? ? ? ? ? Hsome | |]; subst; clear Hopt;
    [| left; reflexivity].
  inversion Hsome as [| | | | | | ? ? ? ? s7 c7 ? ? Hws' Hrest | | | | | | |]; subst;
    clear Hsome.
  pose proof (matches_group_free _ _ _ _ _ _ _ Hws' eq_refl) as ->.
  inversion Hrest as [| | | | | | | | | | | | | ? ? ? ? ? c8 Hdots]; subst; clear Hrest.
  pose proof (matches_group_free _ _ _ _ _ _ _ Hdots eq_refl) as ->.
  right. eexists. reflexivity.
Qed.

(** Every match of the command pattern captures one of the eight
    keywords as its action, and the text contains that keyword. *)
Theorem pattern_requires_keyword f text caps :
  re_match f command_pattern text = Some caps ->
  exists kw, kw ∈ keywords
             /\ g_action (groupdict caps) = Some kw
             /\ contains kw text = true.
Proof.
  unfold re_match. intros H.
  apply rmatch_sound in H as (s' & caps' & H & [= ->]).
  apply matches_command_shape in H
    as (p & ws & a & tail & -> & Halt & Hcaps);
    [| apply literal_group_free | apply one_of_group_free].
  apply matches_one_of in Halt as (kw & Hin & Hkw).
  apply (matches_exact_literal _ _ _ _ _ _ _ (keywords_are_ideographs _ Hin)) in Hkw.
  apply app_inv_tail in Hkw as ->.
  exists kw. split; [exact Hin |]. split.
  - destruct Hcaps as [-> | [v ->]]; reflexivity.
  - rewrite (app_assoc p ws). apply contains_app.
Qed.

(** ** The collaborator call *)

Section Properties.

Variable http_post : nat -> request -> http_outcome.
Variable lower : str -> str.

(** [str.lower] maps the empty string to itself. *)
Hypothesis lower_empty : lower [] = [].

Lemma _call_llm_api_eq prompt api_url api_key model temperature w :
  _call_llm_api http_post prompt api_url api_key model temperature w =
  (Returned (llm_text (http_post (length (http_log w))
                         (llm_request prompt api_url api_key model temperature))),
   logged (llm_request prompt api_url api_key model temperature) w).
Proof.
  unfold _call_llm_api. py_unfold.
  fold (llm_request prompt api_url api_key model temperature).
  fold (logged (llm_request prompt api_url api_key model temperature) w).
  destruct (http_post _ _) as [e | status parsed]; cbn [llm_text]; [reflexivity |].
  destruct (bool_decide (status = 200%Z)); [| reflexivity].
  destruct parsed as [data |]; [| reflexivity].
  unfold read_content.
  destruct (json_get (u "choices") _ data) as [choices |]; [| reflexivity].
  destruct (json_first choices) as [first |]; [| reflexivity].
  destruct (json_get (u "message") _ first) as [msg |]; [| reflexivity].
  destruct (json_get (u "content") _ msg) as [text |]; [| reflexivity].
  destruct (json_strip text); reflexivity.
Qed.

(** A body of the expected shape yields its stripped content; any other
    body yields the empty string or an exception. *)
Lemma read_content_shape data :
  match content_of data with
  | Some s => read_content data = Returned (strip s)
  | None => read_content data = Returned [] \/ exists e, read_content data = Raised e
  end.
Proof.
  unfold content_of, read_content.
  destruct data as [| b | n | s | l | items]; json_simpl; eauto.
  destruct (assoc (u "choices") items) as [choices |]; json_simpl;
    [| left; reflexivity].
  destruct choices as [| b | n | s | l | m]; json_simpl; eauto.
  - destruct s; json_simpl; eauto.
  - destruct l as [| first l]; json_simpl; eauto.
    destruct first as [| b | n | s | l' | first]; json_simpl; eauto.
    destruct (assoc (u "message") first) as [msg |]; json_simpl;
      [| left; reflexivity].
    destruct msg as [| b | n | s | l' | msg]; json_simpl; eauto.
    destruct (assoc (u "content") msg) as [text |]; json_simpl;
      [| left; reflexivity].
    destruct text; json_simpl; eauto.
Qed.

(** C7. The collaborator call always returns a string and never raises: the
    empty string when the HTTP exchange raises, when the status is not 200,
    when the body is not JSON, and when the body lacks the
    [choices[0].message.content] string; it posts exactly one request, with
    a total timeout of 30 seconds. *)
Theorem call_llm_api_fails_open prompt api_url api_key model temperature w :
  let req := llm_request prompt api_url api_key model temperature in
  exists text w',
    _call_llm_api http_post prompt api_url api_key model temperature w
      = (Returned text, w')
    /\ http_log w' = http_log w ++ [req]
    /\ timeout_total req = 30%Z
    /\ game_states w' = game_states w /\ sent w' = sent w
    /\ match http_post (length (http_log w)) req with
       | HttpRaise _ => text = []
       | HttpResponse status parsed =>
         (status <> 200%Z -> text = [])
         /\ (parsed = None -> text = [])
         /\ (forall data, parsed = Some data -> content_of data = None -> text = [])
         /\ (forall data s, status = 200%Z -> parsed = Some data ->
             content_of data = Some s -> text = strip s)
       end.
Proof.
  intros req. eexists _, _. split; [apply _call_llm_api_eq |].
  fold req. repeat (split; [reflexivity |]).
  destruct (http_post (length (http_log w)) req) as [e | status parsed];
    cbn [llm_text]; [reflexivity |].
  case_bool_decide as Hs.
  - split; [congruence |]. split; [intros ->; reflexivity |].
    split; intros data.
    + intros -> Hc. pose proof (read_content_shape data) as H. rewrite Hc in H.
      destruct H as [-> | [e ->]]; reflexivity.
    + intros s _ -> Hc. pose proof (read_content_shape data) as H. rewrite Hc in H.
      rewrite H. reflexivity.
  - repeat split; try reflexivity. intros data s Hs'. contradiction.
Qed.

(** ** Guessing *)

(** What [_handle_guess] does on a game in progress: one request, the guess
    appended to the history, and a reply chosen by the verdict. *)
Lemma guess_judged w group_id st guess api_url api_key model temperature out :
  game_states w !! group_id = Some st ->
  in_progress st = true ->
  answers_at http_post (length (http_log w)) out ->
  exists req,
    let st1 := append_history (ItemStr guess) st in
    _handle_guess http_post lower group_id guess api_url api_key model temperature w
    = (Returned (true, u "猜谜完成", true),
       if decide (lower (strip out) = yes) then
         said (u "🎉 猜对了！答案: " ++ fmt (current_answer st))
           (stored group_id (set_game_over true st1)
              (stored group_id st1 (logged req w)))
       else if decide (lower (strip out) = no) then
         said (u "❌ 猜错了！提示次数: "
               ++ str_of_int (default 0%Z (hints_used st)) ++ u "/3")
           (stored group_id st1 (logged req w))
       else
         said unrelated (stored group_id st1 (logged req w))).
Proof.
  intros Hst Hprog Hout.
  destruct (in_progress_inv _ Hprog) as [Hact Hover].
  unfold _handle_guess. py_unfold. rewrite Hst, Hact, Hover. cbn [negb].
  rewrite _call_llm_api_eq, Hout. py_unfold. eexists.
  destruct (decide (lower (strip out) = yes)); [reflexivity |].
  destruct (decide (lower (strip out) = no)); reflexivity.
Qed.

(** C2. A guess on a game in progress is classified three ways on the
    collaborator's output, stripped and lower-cased: exactly [yes] gives the
    win reply, which is the heading followed by the stored answer string;
    exactly [no] gives the incorrect reply, which contains the hint count;
    anything else, the empty output included, gives the unrelated reply; in
    the last two cases active and over are as before. *)
Theorem guess_classification w group_id st guess api_url api_key model temperature out :
  game_states w !! group_id = Some st ->
  in_progress st = true ->
  answers_at http_post (length (http_log w)) out ->
  exists reply st' w',
    _handle_guess http_post lower group_id guess api_url api_key model temperature w
      = (Returned (true, u "猜谜完成", true), w')
    /\ sent w' = sent w ++ [reply]
    /\ game_states w' !! group_id = Some st'
    /\ (lower (strip out) = yes ->
        reply = u "🎉 猜对了！答案: " ++ fmt (current_answer st)
        /\ contains (fmt (current_answer st)) reply = true
        /\ forall answer,
             current_answer st = Some answer ->
             reply = u "🎉 猜对了！答案: " ++ answer
             /\ contains answer reply = true)
    /\ (lower (strip out) = no ->
        reply = u "❌ 猜错了！提示次数: "
                ++ str_of_int (default 0%Z (hints_used st)) ++ u "/3"
        /\ contains (str_of_int (default 0%Z (hints_used st))) reply = true
        /\ game_active st' = game_active st /\ game_over st' = game_over st)
    /\ (lower (strip out) <> yes -> lower (strip out) <> no ->
        reply = unrelated
        /\ game_active st' = game_active st /\ game_over st' = game_over st)
    /\ (out = [] -> reply = unrelated).
Proof.
  intros Hst Hprog Hout.
  destruct (guess_judged w group_id st guess api_url api_key model temperature out
              Hst Hprog Hout) as [req Heq].
  cbv zeta in Heq.
  assert (Hnil : lower (strip []) = []) by exact lower_empty.
  destruct (decide (lower (strip out) = yes)) as [Hy | Hy];
    [| destruct (decide (lower (strip out) = no)) as [Hn | Hn]];
    (eexists _, _, _; split; [exact Heq |]; split; [reflexivity |];
     split; [apply lookup_insert_eq |]).
  - split; [intros _; split; [reflexivity |]; split; [apply contains_suffix |];
            intros answer Ha; rewrite Ha; split; [reflexivity | apply contains_suffix] |].
    split; [intros Hv; rewrite Hy in Hv; destruct (yes_not_no Hv) |].
    split; [intros Hv; destruct (Hv Hy) |].
    intros ->. rewrite Hnil in Hy. discriminate Hy.
  - split; [intros Hv; destruct (Hy Hv) |].
    split; [intros _; repeat split; apply contains_app |].
    split; [intros _ Hv; destruct (Hv Hn) |].
    intros ->. rewrite Hnil in Hn. discriminate Hn.
  - split; [intros Hv; destruct (Hy Hv) |].
    split; [intros Hv; destruct (Hn Hv) |].
    split; [intros _ _; repeat split |].
    intros _. reflexivity.
Qed.

(** C3, as the code has it. A guess classified as correct on a game in
    progress stores over = true and leaves active true: the session keeps
    its question, answer and hint count, and gains the guess in its
    history. *)
Theorem correct_guess_sets_over w group_id st guess api_url api_key model temperature out :
  game_states w !! group_id = Some st ->
  in_progress st = true ->
  answers_at http_post (length (http_log w)) out ->
  lower (strip out) = yes ->
  exists w',
    _handle_guess http_post lower group_id guess api_url api_key model temperature w
      = (Returned (true, u "猜谜完成", true), w')
    /\ game_states w' !! group_id
       = Some {| current_question := current_question st;
                 current_answer := current_answer st;
                 hints_used := hints_used st;
                 game_active := Some true;
                 guess_history := Some (default [] (guess_history st) ++ [ItemStr guess]);
                 game_over := Some true |}.
Proof.
  intros Hst Hprog Hout Hyes.
  destruct (in_progress_inv _ Hprog) as [Hact Hover].
  destruct (guess_judged w group_id st guess api_url api_key model temperature out
              Hst Hprog Hout) as [req Heq].
  cbv zeta in Heq.
  destruct (decide (lower (strip out) = yes)) as [_ | Hy]; [| destruct (Hy Hyes)].
  eexists. split; [exact Heq |]. world_simpl.
  rewrite lookup_insert_eq. unfold set_game_over, append_history.
  cbn [current_question current_answer hints_used game_active guess_history game_over].
  rewrite (truthy_true _ Hact). reflexivity.
Qed.

(** After a correct guess the session is active and over: a further guess
    is turned away as the game has ended. *)
Lemma guess_after_win_rejected w group_id st guess api_url api_key model temperature :
  game_states w !! group_id = Some st ->
  truthy (game_active st) = true ->
  truthy (game_over st) = true ->
  _handle_guess http_post lower group_id guess api_url api_key model temperature w
  = (Returned (false, u "游戏已结束", true), said game_ended w).
Proof.
  intros Hst Hact Hover. unfold _handle_guess. py_unfold.
  rewrite Hst, Hact, Hover. reflexivity.
Qed.

(** ** Starting *)

Lemma start_rejected w group_id st api_url api_key model temperature stream_id :
  game_states w !! group_id = Some st ->
  in_progress st = true ->
  _start_new_game http_post group_id api_url api_key model temperature stream_id w
  = (Returned (false, u "已有进行中的游戏", true), said already_running w).
Proof.
  intros Hst Hprog. unfold _start_new_game. py_unfold. rewrite Hst.
  cbn [default from_option id]. fold (in_progress st). rewrite Hprog. reflexivity.
Qed.

Lemma start_accepted w group_id api_url api_key model temperature stream_id :
  in_progress (default empty_state (game_states w !! group_id)) = false ->
  let req1 := llm_request prompt_question api_url api_key model temperature in
  let question := strip (llm_text (http_post (length (http_log w)) req1)) in
  let req2 := llm_request (prompt_answer question) api_url api_key model temperature in
  let answer := strip (llm_text (http_post (length (http_log w ++ [req1])) req2)) in
  exists text,
    _start_new_game http_post group_id api_url api_key model temperature stream_id w
    = (Returned (true, u "新题目生成完成", true),
       said text (stored group_id (new_game question answer) (logged req2 (logged req1 w)))).
Proof.
  intros Hprog. unfold _start_new_game. py_unfold.
  fold (in_progress (default empty_state (game_states w !! group_id))).
  rewrite Hprog. rewrite _call_llm_api_eq. py_unfold. rewrite _call_llm_api_eq.
  eexists. reflexivity.
Qed.

(** C8. Starting a game on a session in progress changes nothing in the
    store, makes no collaborator call, and sends only the rejection. *)
Theorem start_guard w group_id st api_url api_key model temperature stream_id :
  game_states w !! group_id = Some st ->
  in_progress st = true ->
  exists w',
    _start_new_game http_post group_id api_url api_key model temperature stream_id w
      = (Returned (false, u "已有进行中的游戏", true), w')
    /\ game_states w' = game_states w
    /\ http_log w' = http_log w
    /\ sent w' = sent w ++ [already_running].
Proof.
  intros Hst Hprog. eexists. split; [exact (start_rejected _ _ _ _ _ _ _ _ Hst Hprog) |].
  repeat split.
Qed.

(** ** Dispatch *)

Lemma keyword_without_text (action keyword rest : str) :
  (action = keyword -> rest = []) ->
  bool_decide (action = keyword) && nonempty rest = false.
Proof.
  intros H. destruct (decide (action = keyword)) as [E | E].
  - rewrite (H E). apply andb_false_r.
  - rewrite (bool_decide_eq_false_2 _ E). reflexivity.
Qed.

(** With the context checks passed, a command that no branch of [execute]
    takes runs [_start_new_game] on the store with the session dict
    created. *)
Lemma execute_default self cs api_url api_key w :
  context_ok self cs api_url api_key ->
  (action_of self = kw_question -> rest_of self = []) ->
  (action_of self = kw_guess -> rest_of self = []) ->
  action_of self ∉ [kw_hint; kw_clues; kw_puzzle; kw_reveal; kw_exit; kw_help] ->
  execute http_post lower self w
  = _start_new_game http_post (group_id_for cs) api_url api_key
      (model_of self) (temperature_of self) (stream_id cs)
      (ensured (group_id_for cs) w).
Proof.
  intros (Hcs & Hen & Hurl & Hurl' & Hkey & Hkey') Hq Hg Hother.
  unfold execute. cbv zeta.
  fold (action_of self) (rest_of self) (model_of self) (temperature_of self).
  rewrite Hcs, Hen, Hurl, Hkey.
  rewrite (nonempty_true _ Hurl'), (nonempty_true _ Hkey'). cbn [negb orb].
  fold (group_id_for cs).
  py_unfold. unfold ensured.
  rewrite !not_elem_of_cons in Hother.
  destruct Hother as (H1 & H2 & H3 & H4 & H5 & H6 & _).
  destruct (game_states w !! group_id_for cs) eqn:E;
    rewrite (keyword_without_text _ _ _ Hq), (keyword_without_text _ _ _ Hg);
    rewrite !bool_decide_eq_false_2 by assumption; reflexivity.
Qed.

Lemma execute_exit self cs api_url api_key w :
  context_ok self cs api_url api_key ->
  action_of self = kw_exit ->
  execute http_post lower self w
  = _handle_exit (group_id_for cs) (ensured (group_id_for cs) w).
Proof.
  intros (Hcs & Hen & Hurl & Hurl' & Hkey & Hkey') Hact.
  unfold execute. cbv zeta.
  fold (action_of self) (rest_of self) (model_of self) (temperature_of self).
  rewrite Hcs, Hen, Hurl, Hkey, Hact.
  rewrite (nonempty_true _ Hurl'), (nonempty_true _ Hkey'). cbn [negb orb].
  fold (group_id_for cs).
  py_unfold. unfold ensured.
  destruct (game_states w !! group_id_for cs) eqn:E; reflexivity.
Qed.

(** Reveal on an active session is the one write that stores active = false
    together with over = true. *)
Lemma execute_reveal self cs api_url api_key w st :
  context_ok self cs api_url api_key ->
  action_of self = kw_reveal ->
  game_states w !! group_id_for cs = Some st ->
  truthy (game_active st) = true ->
  execute http_post lower self w
  = (Returned (true, u "已揭秘", true),
     stored (group_id_for cs) (set_game_over true (set_game_active false st))
       (said (u "🔓 当前海龟汤答案是:
" ++ default (u "无答案") (current_answer st) ++ u "
游戏结束。") w)).
Proof.
  intros (Hcs & Hen & Hurl & Hurl' & Hkey & Hkey') Hact Hst Hactive.
  unfold execute. cbv zeta.
  fold (action_of self) (rest_of self) (model_of self) (temperature_of self).
  rewrite Hcs, Hen, Hurl, Hkey, Hact.
  rewrite (nonempty_true _ Hurl'), (nonempty_true _ Hkey'). cbn [negb orb].
  fold (group_id_for cs).
  py_unfold. rewrite Hst. cbn [default from_option id]. rewrite Hactive.
  reflexivity.
Qed.

(** C9. Exit stores the fully reset session, whatever was stored before:
    not active, not over, no hints used, empty history, empty question and
    answer. The Exit command reaches this handler whenever the context
    checks of [execute] pass. *)
Theorem exit_resets :
  (forall group_id w,
     exists w',
       _handle_exit group_id w = (Returned (true, u "退出游戏", true), w')
       /\ game_states w' !! group_id
          = Some {| current_question := Some []; current_answer := Some [];
                    hints_used := Some 0%Z; game_active := Some false;
                    guess_history := Some []; game_over := Some false |}
       /\ sent w' = sent w ++ [u "🛑 游戏已退出"])
  /\ (forall self cs api_url api_key w,
        context_ok self cs api_url api_key ->
        action_of self = kw_exit ->
        exists w',
          execute http_post lower self w = (Returned (true, u "退出游戏", true), w')
          /\ game_states w' !! group_id_for cs = Some exited).
Proof.
  split.
  - intros group_id w. eexists. split; [reflexivity |].
    split; [apply lookup_insert_eq | reflexivity].
  - intros self cs api_url api_key w Hctx Hact.
    rewrite (execute_exit _ _ _ _ _ Hctx Hact).
    eexists. split; [reflexivity | apply lookup_insert_eq].
Qed.

(** C10. An Ask or Guess keyword with no text after it is sent neither to
    the ask or guess handler nor back with a rejection by the dispatcher:
    [execute] runs [_start_new_game], which rejects the command when a game
    is in progress. *)
Theorem keyword_without_argument_starts_game self cs api_url api_key w :
  context_ok self cs api_url api_key ->
  action_of self = kw_question \/ action_of self = kw_guess ->
  rest_of self = [] ->
  execute http_post lower self w
  = _start_new_game http_post (group_id_for cs) api_url api_key
      (model_of self) (temperature_of self) (stream_id cs)
      (ensured (group_id_for cs) w)
  /\ (forall st,
        game_states w !! group_id_for cs = Some st ->
        in_progress st = true ->
        execute http_post lower self w
        = (Returned (false, u "已有进行中的游戏", true), said already_running w)).
Proof.
  intros Hctx Hact Hrest.
  assert (Hdef : execute http_post lower self w
                 = _start_new_game http_post (group_id_for cs) api_url api_key
                     (model_of self) (temperature_of self) (stream_id cs)
                     (ensured (group_id_for cs) w)).
  { apply execute_default; try (intros _; exact Hrest); [exact Hctx |].
    rewrite !not_elem_of_cons.
    destruct Hact as [-> | ->]; repeat split; try discriminate; apply not_elem_of_nil. }
  split; [exact Hdef |].
  intros st Hst Hprog. rewrite Hdef. unfold ensured. rewrite Hst.
  exact (start_rejected _ _ _ _ _ _ _ _ Hst Hprog).
Qed.

(** What the final else of [execute] does when no action was matched. *)
Lemma execute_without_action_starts_game self cs api_url api_key w :
  context_ok self cs api_url api_key ->
  action_of self = [] ->
  execute http_post lower self w
  = _start_new_game http_post (group_id_for cs) api_url api_key
      (model_of self) (temperature_of self) (stream_id cs)
      (ensured (group_id_for cs) w).
Proof.
  intros Hctx Hact. apply execute_default; [exact Hctx | | |];
    rewrite Hact; try discriminate.
  rewrite !not_elem_of_cons. repeat split; try discriminate. apply not_elem_of_nil.
Qed.

(** ** The command pattern *)

(** A message that holds none of the eight keywords is not handled. *)
Lemma message_without_keyword_is_not_handled f self text w :
  (forall kw, kw ∈ keywords -> contains kw text = false) ->
  on_message http_post lower f self text w = (Returned None, w).
Proof.
  intros Hnone. unfold on_message.
  destruct (re_match f command_pattern text) as [caps |] eqn:E; [| reflexivity].
  apply pattern_requires_keyword in E as (kw & Hin & _ & Hkw).
  rewrite (Hnone kw Hin) in Hkw. discriminate Hkw.
Qed.

(** The documented way to start a game, [/hgt 问题], matches with no rest
    and reaches [_start_new_game]. *)
Lemma question_keyword_alone_starts_game f self cs api_url api_key w :
  context_ok self cs api_url api_key ->
  on_message http_post lower f self (u "/hgt 问题") w
  = (r ← _start_new_game http_post (group_id_for cs) api_url api_key
          (model_of self) (temperature_of self) (stream_id cs);
     mret (Some r)) (ensured (group_id_for cs) w).
Proof.
  intros Hctx. unfold on_message.
  assert (Hm : exists caps,
             re_match f command_pattern (u "/hgt 问题") = Some caps
             /\ groupdict caps = {| g_action := Some kw_question; g_rest := None |}).
  { destruct f as [[|] [|]]; eexists; split; vm_compute; reflexivity. }
  destruct Hm as (caps & -> & ->).
  py_unfold.
  rewrite (execute_default _ cs api_url api_key); try discriminate; try reflexivity.
  - exact Hctx.
  - rewrite !not_elem_of_cons. repeat split; try discriminate. apply not_elem_of_nil.
Qed.

Lemma pattern_rejects_bare_prefix f : re_match f command_pattern (u "/hgt") = None.
Proof. destruct f as [[|] [|]]; vm_compute; reflexivity. Qed.

(** C5, against the code. A message that is only the prefix [/hgt] does not
    match [command_pattern], whose action group is mandatory: the command is
    not run, nothing is sent and no game is started. *)
Theorem bare_prefix_is_not_handled f self w :
  re_match f command_pattern (u "/hgt") = None
  /\ on_message http_post lower f self (u "/hgt") w = (Returned None, w).
Proof.
  split; [apply pattern_rejects_bare_prefix |].
  unfold on_message. rewrite pattern_rejects_bare_prefix. reflexivity.
Qed.

(** ** Every command moves the store by session steps *)

Lemma steps_one m group_id st :
  session_step http_post (m !! group_id) st ->
  store_steps http_post m (<[group_id := st]> m).
Proof. intros H. eapply steps_write; [exact H | apply steps_done]. Qed.

Lemma steps_trans m1 m2 m3 :
  store_steps http_post m1 m2 -> store_steps http_post m2 m3 ->
  store_steps http_post m1 m3.
Proof.
  induction 1 as [| m group_id st m' Hstep _ IH]; [trivial |].
  intros H. eapply steps_write; [exact Hstep | exact (IH H)].
Qed.

Lemma append_history_in_progress item st :
  in_progress (append_history item st) = in_progress st.
Proof. reflexivity. Qed.

Lemma start_steps group_id api_url api_key model temperature stream_id w :
  store_steps http_post (game_states w)
    (game_states (_start_new_game http_post group_id api_url api_key model
                    temperature stream_id w).2).
Proof.
  destruct (in_progress (default empty_state (game_states w !! group_id))) eqn:E.
  - unfold _start_new_game. py_unfold.
    fold (in_progress (default empty_state (game_states w !! group_id))).
    rewrite E. apply steps_done.
  - destruct (start_accepted w group_id api_url api_key model temperature stream_id E)
      as [text ->].
    world_simpl. apply steps_one, step_start, E.
Qed.

Lemma question_steps group_id question api_url api_key model temperature w :
  store_steps http_post (game_states w)
    (game_states (_handle_question http_post group_id question api_url api_key
                    model temperature w).2).
Proof.
  unfold _handle_question. py_unfold.
  destruct (game_states w !! group_id) as [st |] eqn:E; [| apply steps_done].
  destruct (truthy (game_active st)) eqn:Hact; cbn [negb].
  - rewrite _call_llm_api_eq. world_simpl. apply steps_one.
    rewrite E. apply step_ask, Hact.
  - apply start_steps.
Qed.

Lemma hint_steps group_id api_url api_key model temperature w :
  store_steps http_post (game_states w)
    (game_states (_handle_hint http_post group_id api_url api_key model
                    temperature w).2).
Proof.
  unfold _handle_hint. py_unfold.
  destruct (game_states w !! group_id) as [st |] eqn:E; [| apply steps_done].
  destruct (truthy (game_active st)) eqn:Hact; cbn [negb]; [| apply steps_done].
  destruct (Z.leb_spec 3 (default 0%Z (hints_used st))) as [Hh | Hh];
    [apply steps_done |].
  rewrite _call_llm_api_eq. world_simpl. apply steps_one.
  rewrite E. apply step_hint; assumption.
Qed.

Lemma clues_steps group_id api_url api_key model temperature w :
  store_steps http_post (game_states w)
    (game_states (_handle_clues http_post group_id api_url api_key model
                    temperature w).2).
Proof.
  unfold _handle_clues. py_unfold.
  destruct (game_states w !! group_id) as [st |] eqn:E; [| apply steps_done].
  destruct (truthy (game_active st)); cbn [negb]; [| apply steps_done].
  destruct (contents _); [| apply steps_done].
  rewrite _call_llm_api_eq. apply steps_done.
Qed.

Lemma guess_steps group_id guess api_url api_key model temperature w :
  store_steps http_post (game_states w)
    (game_states (_handle_guess http_post lower group_id guess api_url api_key
                    model temperature w).2).
Proof.
  unfold _handle_guess. py_unfold.
  destruct (game_states w !! group_id) as [st |] eqn:E; [| apply steps_done].
  destruct (truthy (game_active st)) eqn:Hact; cbn [negb]; [| apply steps_done].
  destruct (truthy (game_over st)) eqn:Hover; [apply steps_done |].
  assert (Hprog : in_progress st = true) by (unfold in_progress; rewrite Hact, Hover; reflexivity).
  rewrite _call_llm_api_eq. py_unfold.
  destruct (decide _); [| destruct (decide _)]; world_simpl.
  - eapply steps_write; [rewrite E; apply step_guess, Hprog |].
    apply steps_one. rewrite lookup_insert_eq. apply step_win.
    rewrite append_history_in_progress. exact Hprog.
  - apply steps_one. rewrite E. apply step_guess, Hprog.
  - apply steps_one. rewrite E. apply step_guess, Hprog.
Qed.

Lemma exit_steps group_id w :
  store_steps http_post (game_states w) (game_states (_handle_exit group_id w).2).
Proof. unfold _handle_exit. py_unfold. world_simpl. apply steps_one, step_exit. Qed.

(** The branches of [execute] once the session dict exists. *)
Ltac execute_branches Hst :=
  repeat match goal with
         | |- context [if ?b then _ else _] => destruct b eqn:?
         end;
  try rewrite Hst; py_unfold; world_simpl;
  repeat match goal with
         | |- context [if ?b then _ else _] => destruct b eqn:?
         end;
  world_simpl;
  first [ apply question_steps | apply hint_steps | apply clues_steps
        | apply guess_steps | apply exit_steps | apply start_steps
        | apply steps_done | idtac ].

Lemma execute_steps self w :
  store_steps http_post (game_states w)
    (game_states (execute http_post lower self w).2).
Proof.
  unfold execute. cbv zeta.
  destruct (match chat_stream self with
            | Some c => Some c
            | None => message_chat_stream self
            end) as [cs |]; [| apply steps_done].
  destruct (negb (default true (plugin_enabled (cfg self)))); [apply steps_done |].
  destruct (negb (nonempty _) || negb (nonempty _)); [apply steps_done |].
  fold (group_id_for cs). generalize (group_id_for cs). intros gid.
  py_unfold.
  destruct (game_states w !! gid) as [st |] eqn:Hst; cbn [default from_option id].
  - execute_branches Hst.
    apply steps_one. rewrite Hst. apply step_reveal.
    match goal with H : negb _ = false |- _ => apply negb_false_iff in H; exact H end.
  - eapply steps_write; [rewrite Hst; apply step_create |].
    set (w1 := {| game_states := <[gid := empty_state]> (game_states w);
                  sent := sent w; http_log := http_log w |}).
    change (<[gid := empty_state]> (game_states w)) with (game_states w1).
    assert (Hst1 : game_states w1 !! gid = Some empty_state) by apply lookup_insert_eq.
    clearbody w1. execute_branches Hst1. discriminate.
Qed.

(** ** Invariants of the store *)

Lemma steps_preserve (P : state -> Prop) m m' :
  (forall o st, session_step http_post o st ->
                (forall st0, o = Some st0 -> P st0) -> P st) ->
  store_steps http_post m m' ->
  (forall group_id st, m !! group_id = Some st -> P st) ->
  forall group_id st, m' !! group_id = Some st -> P st.
Proof.
  intros HP Hsteps.
  induction Hsteps as [| m g st m' Hstep _ IH]; [trivial |].
  intros Hm. apply IH. intros g' st'.
  destruct (decide (g = g')) as [<- | Hne].
  - rewrite lookup_insert_eq. intros [= <-]. apply (HP _ _ Hstep). apply Hm.
  - rewrite lookup_insert_ne by exact Hne. apply Hm.
Qed.

Lemma reachable_inv (P : state -> Prop) :
  (forall o st, session_step http_post o st ->
                (forall st0, o = Some st0 -> P st0) -> P st) ->
  forall w, reachable http_post lower w -> store_inv P w.
Proof.
  intros HP w Hw. induction Hw as [| w self _ IH].
  - intros g st H. cbn in H. rewrite lookup_empty in H. discriminate H.
  - exact (steps_preserve P _ _ HP (execute_steps self w) IH).
Qed.

Lemma step_keeps_cap o st :
  session_step http_post o st ->
  (forall st0, o = Some st0 -> hints_within_cap st0) -> hints_within_cap st.
Proof.
  unfold hints_within_cap.
  intros Hstep Hprev. inversion Hstep; subst; cbn; try lia;
    try (specialize (Hprev _ eq_refl); assumption).
Qed.

Lemma step_keeps_puzzle o st :
  session_step http_post o st ->
  (forall st0, o = Some st0 -> puzzle_from_collaborator http_post st0) ->
  puzzle_from_collaborator http_post st.
Proof.
  unfold puzzle_from_collaborator.
  intros Hstep Hprev. inversion Hstep; subst; cbn; try discriminate;
    try (exact (Hprev _ eq_refl)).
  intros _. eauto 6.
Qed.

Lemma hint_accepted w group_id st api_url api_key model temperature :
  game_states w !! group_id = Some st ->
  truthy (game_active st) = true ->
  (default 0 (hints_used st) < 3)%Z ->
  exists req hint,
    _handle_hint http_post group_id api_url api_key model temperature w
    = (Returned (true, u "提示完成", true),
       said (u "💡 提示 (" ++ str_of_int (default 0 (hints_used st) + 1)%Z
             ++ u "/3): " ++ strip hint)
         (stored group_id (set_hints_used (default 0 (hints_used st) + 1)%Z st)
            (logged req w)))
    /\ hint = llm_text (http_post (length (http_log w)) req).
Proof.
  intros Hst Hact Hh. unfold _handle_hint. py_unfold. rewrite Hst, Hact. cbn [negb].
  destruct (Z.leb_spec 3 (default 0%Z (hints_used st))) as [Hge | _]; [lia |].
  rewrite _call_llm_api_eq. eexists _, _. split; reflexivity.
Qed.

Lemma hint_rejected w group_id st api_url api_key model temperature :
  game_states w !! group_id = Some st ->
  truthy (game_active st) = false \/ (3 <= default 0 (hints_used st))%Z ->
  exists reason text,
    _handle_hint http_post group_id api_url api_key model temperature w
    = (Returned (false, reason, true), said text w).
Proof.
  intros Hst Hcase. unfold _handle_hint. py_unfold. rewrite Hst.
  destruct (truthy (game_active st)); cbn [negb]; [| eexists _, _; reflexivity].
  destruct Hcase as [Hact | Hh]; [discriminate |].
  destruct (Z.leb_spec 3 (default 0%Z (hints_used st))) as [_ | Hlt]; [| lia].
  eexists _, _; reflexivity.
Qed.

(** C4. In every reachable world every session has at most 3 hints used; a
    hint that succeeds adds exactly one to the count and changes no other
    field; a hint asked at 3 or more is rejected and the world only gains
    the rejection message. *)
Theorem hint_cap :
  (forall w, reachable http_post lower w -> store_inv hints_within_cap w)
  /\ (forall w group_id st api_url api_key model temperature reason flag w',
        game_states w !! group_id = Some st ->
        _handle_hint http_post group_id api_url api_key model temperature w
          = (Returned (true, reason, flag), w') ->
        game_states w' !! group_id
          = Some {| current_question := current_question st;
                    current_answer := current_answer st;
                    hints_used := Some (default 0 (hints_used st) + 1)%Z;
                    game_active := game_active st;
                    guess_history := guess_history st;
                    game_over := game_over st |}
        /\ (default 0 (hints_used st) + 1 <= 3)%Z)
  /\ (forall w group_id st api_url api_key model temperature,
        game_states w !! group_id = Some st ->
        (3 <= default 0 (hints_used st))%Z ->
        exists reason text w',
          _handle_hint http_post group_id api_url api_key model temperature w
            = (Returned (false, reason, true), w')
          /\ game_states w' = game_states w
          /\ http_log w' = http_log w
          /\ sent w' = sent w ++ [text]).
Proof.
  split; [| split].
  - apply reachable_inv, step_keeps_cap.
  - intros w group_id st api_url api_key model temperature reason flag w' Hst Hrun.
    destruct (truthy (game_active st)) eqn:Hact.
    + destruct (Z.lt_ge_cases (default 0%Z (hints_used st)) 3) as [Hlt | Hge].
      * destruct (hint_accepted w group_id st api_url api_key model temperature
                    Hst Hact Hlt) as (req & hint & Heq & _).
        rewrite Heq in Hrun. injection Hrun as _ _ <-. world_simpl.
        rewrite lookup_insert_eq. split; [reflexivity | lia].
      * destruct (hint_rejected w group_id st api_url api_key model temperature
                    Hst (or_intror Hge)) as (r & t & Heq).
        rewrite Heq in Hrun. discriminate Hrun.
    + destruct (hint_rejected w group_id st api_url api_key model temperature
                  Hst (or_introl Hact)) as (r & t & Heq).
      rewrite Heq in Hrun. discriminate Hrun.
  - intros w group_id st api_url api_key model temperature Hst Hge.
    destruct (hint_rejected w group_id st api_url api_key model temperature
                Hst (or_intror Hge)) as (r & t & Heq).
    eexists r, t, _. split; [exact Heq |]. repeat split.
Qed.

(** Among the writes to a session, only the one made by starting a game
    turns active on. *)
Lemma only_start_activates o st :
  session_step http_post o st ->
  truthy (game_active st) = true ->
  (exists st0, o = Some st0 /\ truthy (game_active st0) = true)
  \/ (exists q a, st = new_game q a).
Proof.
  intros Hstep. inversion Hstep; subst; cbn; try discriminate; eauto.
Qed.

(** C1, as the code has it. In every reachable world an active session's
    question and answer are stripped collaborator outputs; they are
    non-empty when the collaborator never returns blank text. They are put
    there by the start of the game: every command changes the store by
    session writes, and the only write that turns active on is the one
    that stores a new game. *)
Theorem active_session_puzzle :
  (forall w group_id st,
     reachable http_post lower w ->
     game_states w !! group_id = Some st ->
     truthy (game_active st) = true ->
     exists n1 req1 n2 req2 q a,
       q = strip (llm_text (http_post n1 req1))
       /\ a = strip (llm_text (http_post n2 req2))
       /\ current_question st = Some q /\ current_answer st = Some a
       /\ ((forall n req, strip (llm_text (http_post n req)) <> []) ->
           q <> [] /\ a <> []))
  /\ (forall self w,
        store_steps http_post (game_states w)
          (game_states (execute http_post lower self w).2))
  /\ (forall o st,
        session_step http_post o st ->
        truthy (game_active st) = true ->
        (exists st0, o = Some st0 /\ truthy (game_active st0) = true)
        \/ (exists q a, st = new_game q a)).
Proof.
  split; [| split; [exact execute_steps | exact only_start_activates]].
  intros w group_id st Hw Hst Hact.
  destruct (reachable_inv _ step_keeps_puzzle w Hw group_id st Hst Hact)
    as (n1 & req1 & n2 & req2 & Hq & Ha).
  exists n1, req1, n2, req2.
  eexists _, _. split; [reflexivity |]. split; [reflexivity |].
  split; [exact Hq |]. split; [exact Ha |].
  intros Hnet. split; apply Hnet.
Qed.

(** ** Empty collaborator output *)

Lemma question_answered w group_id st question api_url api_key model temperature :
  game_states w !! group_id = Some st ->
  truthy (game_active st) = true ->
  exists req,
    let out := llm_text (http_post (length (http_log w)) req) in
    _handle_question http_post group_id question api_url api_key model temperature w
    = (Returned (true, u "问题回答完成", true),
       said (u "❓ 你问: " ++ question ++ u "
💡 回答: " ++ str_or (strip out) no_answer)
         (logged req
            (stored group_id (append_history (ItemDict (u "question") question) st) w))).
Proof.
  intros Hst Hact. unfold _handle_question. py_unfold. rewrite Hst, Hact. cbn [negb].
  rewrite _call_llm_api_eq. eexists. reflexivity.
Qed.

Lemma clues_listed w group_id st items api_url api_key model temperature :
  game_states w !! group_id = Some st ->
  truthy (game_active st) = true ->
  contents (default [] (guess_history st)) = Returned items ->
  exists req,
    let out := llm_text (http_post (length (http_log w)) req) in
    _handle_clues http_post group_id api_url api_key model temperature w
    = (Returned (true, u "线索整理完成", true),
       said (u "📝 线索整理:
" ++ strip out) (logged req w)).
Proof.
  intros Hst Hact Hitems. unfold _handle_clues. py_unfold.
  rewrite Hst, Hact, Hitems. cbn [negb].
  rewrite _call_llm_api_eq. eexists. reflexivity.
Qed.

(** Once a guess is in the history, the clue summary raises before any
    collaborator call: a bare string has no ["content"] key. *)
Lemma clues_after_guess_raise w group_id st history guess rest
    api_url api_key model temperature :
  game_states w !! group_id = Some st ->
  truthy (game_active st) = true ->
  guess_history st = Some (history ++ ItemStr guess :: rest) ->
  _handle_clues http_post group_id api_url api_key model temperature w
  = (Raised TypeError, w).
Proof.
  intros Hst Hact Hh. unfold _handle_clues. py_unfold.
  rewrite Hst, Hact, Hh. cbn [negb default from_option id].
  assert (Hc : contents (history ++ ItemStr guess :: rest) = Raised TypeError).
  { clear. induction history as [| [t c | s] history IH]; cbn [contents app];
      [reflexivity | rewrite IH; reflexivity | reflexivity]. }
  rewrite Hc. reflexivity.
Qed.

(** C6, as the code has it. With an empty collaborator output every
    command that calls the collaborator still returns success. The ask
    reply then carries the fallback text in place of the answer; a guess
    gets the unrelated reply. *)
Theorem empty_output_still_succeeds :
  (forall w group_id st question api_url api_key model temperature,
     game_states w !! group_id = Some st ->
     truthy (game_active st) = true ->
     answers_at http_post (length (http_log w)) [] ->
     exists w',
       _handle_question http_post group_id question api_url api_key model temperature w
         = (Returned (true, u "问题回答完成", true), w')
       /\ sent w' = sent w ++ [u "❓ 你问: " ++ question ++ u "
💡 回答: " ++ no_answer]
       /\ contains no_answer (u "❓ 你问: " ++ question ++ u "
💡 回答: " ++ no_answer) = true)
  /\ (forall w group_id st guess api_url api_key model temperature,
        game_states w !! group_id = Some st ->
        in_progress st = true ->
        answers_at http_post (length (http_log w)) [] ->
        exists w',
          _handle_guess http_post lower group_id guess api_url api_key model temperature w
            = (Returned (true, u "猜谜完成", true), w')
          /\ sent w' = sent w ++ [unrelated])
  /\ (forall w group_id st api_url api_key model temperature,
        game_states w !! group_id = Some st ->
        truthy (game_active st) = true ->
        (default 0 (hints_used st) < 3)%Z ->
        exists w',
          _handle_hint http_post group_id api_url api_key model temperature w
            = (Returned (true, u "提示完成", true), w'))
  /\ (forall w group_id st items api_url api_key model temperature,
        game_states w !! group_id = Some st ->
        truthy (game_active st) = true ->
        contents (default [] (guess_history st)) = Returned items ->
        exists w',
          _handle_clues http_post group_id api_url api_key model temperature w
            = (Returned (true, u "线索整理完成", true), w'))
  /\ (forall w group_id api_url api_key model temperature stream_id,
        in_progress (default empty_state (game_states w !! group_id)) = false ->
        exists w',
          _start_new_game http_post group_id api_url api_key model temperature stream_id w
            = (Returned (true, u "新题目生成完成", true), w')).
Proof.
  repeat split.
  - intros w group_id st question api_url api_key model temperature Hst Hact Hout.
    destruct (question_answered w group_id st question api_url api_key model
                temperature Hst Hact) as [req Heq].
    cbv zeta in Heq. rewrite Hout in Heq.
    eexists. split; [exact Heq |]. split; [reflexivity |].
    rewrite !app_assoc. apply contains_suffix.
  - intros w group_id st guess api_url api_key model temperature Hst Hprog Hout.
    destruct (guess_judged w group_id st guess api_url api_key model
                temperature [] Hst Hprog Hout) as [req Heq].
    cbv zeta in Heq. change (strip []) with (@nil N) in Heq.
    rewrite lower_empty in Heq.
    eexists. split; [exact Heq |]. reflexivity.
  - intros w group_id st api_url api_key model temperature Hst Hact Hlt.
    destruct (hint_accepted w group_id st api_url api_key model temperature
                Hst Hact Hlt) as (req & hint & Heq & _).
    eexists. exact Heq.
  - intros w group_id st items api_url api_key model temperature Hst Hact Hitems.
    destruct (clues_listed w group_id st items api_url api_key model temperature
                Hst Hact Hitems) as [req Heq].
    eexists. exact Heq.
  - intros w group_id api_url api_key model temperature stream_id Hprog.
    destruct (start_accepted w group_id api_url api_key model temperature stream_id
                Hprog) as [text Heq].
    eexists. exact Heq.
Qed.

End Properties.

(** * Concrete runs *)

(** ** The string operations on small inputs *)

Example strip_spaces_and_newline : strip (u "  是
") = u "是".
Proof. vm_compute. reflexivity. Qed.

Example strip_ideographic_space : strip (u "　不是　") = no.
Proof. vm_compute. reflexivity. Qed.

Example strip_blank : strip (u " 	 ") = [].
Proof. vm_compute. reflexivity. Qed.

Example str_of_int_3 : str_of_int 3 = u "3".
Proof. vm_compute. reflexivity. Qed.

Example join_lines : join (u "
") [u "a"; u "b"; u "c"] = u "a
b
c".
Proof. vm_compute. reflexivity. Qed.

Example read_well_formed : read_content (chat_completion (u " 是 ")) = Returned yes.
Proof. vm_compute. reflexivity. Qed.

Example read_empty_choices :
  read_content (JObj [(u "choices", JArr [])]) = Raised IndexError.
Proof. vm_compute. reflexivity. Qed.

Example read_null_content :
  read_content
    (JObj [(u "choices", JArr [JObj [(u "message", JObj [(u "content", JNull)])]])])
  = Raised AttributeError.
Proof. vm_compute. reflexivity. Qed.

Example read_no_choices : read_content (JObj []) = Returned [].
Proof. vm_compute. reflexivity. Qed.

(** ** The command pattern on sample messages *)

Example pattern_question_alone f :
  groupdict <$> re_match f command_pattern (u "/hgt 问题")
  = Some {| g_action := Some kw_question; g_rest := None |}.
Proof. destruct f as [[|] [|]]; vm_compute; reflexivity. Qed.

Example pattern_guess_blank_rest f :
  groupdict <$> re_match f command_pattern (u "/hgt 猜谜  ")
  = Some {| g_action := Some kw_guess; g_rest := Some (u " ") |}.
Proof. destruct f as [[|] [|]]; vm_compute; reflexivity. Qed.

Example pattern_guess_with_text f :
  groupdict <$> re_match f command_pattern (u "/hgt 猜谜 海龟是用海龟做的")
  = Some {| g_action := Some kw_guess; g_rest := Some (u "海龟是用海龟做的") |}.
Proof. destruct f as [[|] [|]]; vm_compute; reflexivity. Qed.

Example pattern_unknown_word f :
  re_match f command_pattern (u "/hgt 你好") = None.
Proof. destruct f as [[|] [|]]; vm_compute; reflexivity. Qed.

(** ** C1 *)

Lemma sample_context_ok action rest :
  context_ok (sample_command action rest) sample_stream sample_url sample_key.
Proof. repeat split; discriminate. Qed.

(** With the network down, [/hgt 问题] on a fresh store starts a game whose
    question and answer are empty. *)
Lemma failed_start_breaks_nonempty_puzzle :
  reachable net_down ascii_lower
    (execute net_down ascii_lower (sample_command (Some kw_question) None)
       initial_world).2
  /\ game_states
       (execute net_down ascii_lower (sample_command (Some kw_question) None)
          initial_world).2 !! g1
     = Some {| current_question := Some []; current_answer := Some [];
               hints_used := Some 0%Z; game_active := Some true;
               guess_history := Some []; game_over := Some false |}
  /\ ~ store_inv active_has_puzzle
         (execute net_down ascii_lower (sample_command (Some kw_question) None)
            initial_world).2.
Proof.
  assert (H : game_states
                (execute net_down ascii_lower (sample_command (Some kw_question) None)
                   initial_world).2 !! g1 = Some (new_game [] []))
    by (vm_compute; reflexivity).
  split; [apply reach_execute, reach_init |]. split; [exact H |].
  intros Hinv. destruct (Hinv g1 _ H eq_refl) as (q & a & Hq & Hne & _).
  injection Hq as <-. exact (Hne eq_refl).
Qed.

Lemma active_session_puzzle_witness :
  reachable (net_says (u "Q")) ascii_lower
    (execute (net_says (u "Q")) ascii_lower
       (sample_command (Some kw_question) None) initial_world).2
  /\ exists q a,
       current_question (new_game (u "Q") (u "Q")) = Some q /\ q <> []
       /\ current_answer (new_game (u "Q") (u "Q")) = Some a /\ a <> [].
Proof.
  assert (Hw : reachable (net_says (u "Q")) ascii_lower
                 (execute (net_says (u "Q")) ascii_lower
                    (sample_command (Some kw_question) None) initial_world).2)
    by apply reach_execute, reach_init.
  split; [exact Hw |].
  destruct (active_session_puzzle (net_says (u "Q")) ascii_lower) as (Hinv & _).
  destruct (Hinv _ g1 (new_game (u "Q") (u "Q")) Hw
              ltac:(vm_compute; reflexivity) eq_refl)
    as (n1 & req1 & n2 & req2 & q & a & _ & _ & Hq & Ha & Hne).
  exists q, a.
  destruct Hne as [Hq' Ha']; [intros n req; discriminate |].
  repeat split; assumption.
Defined.

(** ** C2 *)

Lemma playing_lookup question answer n :
  game_states (playing question answer n) !! g1
  = Some (set_hints_used n (new_game question answer)).
Proof. apply lookup_singleton_eq. Qed.

Lemma guess_classification_witness :
  (exists w',
     _handle_guess (net_says no) ascii_lower g1 (u "x")
       sample_url sample_key sample_model (7 # 10)%Q (playing (u "Q") (u "A") 2)
     = (Returned (true, u "猜谜完成", true), w')
     /\ sent w' = [u "❌ 猜错了！提示次数: 2/3"])
  /\ (exists w',
        _handle_guess (net_says (u " 是
")) ascii_lower g1 (u "x")
          sample_url sample_key sample_model (7 # 10)%Q
          (playing (u "Q") (u "the twin did it") 2)
        = (Returned (true, u "猜谜完成", true), w')
        /\ sent w' = [u "🎉 猜对了！答案: the twin did it"])
  /\ (exists w',
        _handle_guess (net_says (u "maybe")) ascii_lower g1 (u "x")
          sample_url sample_key sample_model (7 # 10)%Q (playing (u "Q") (u "A") 2)
        = (Returned (true, u "猜谜完成", true), w')
        /\ sent w' = [unrelated]).
Proof.
  split; [| split].
  - destruct (guess_classification (net_says no) ascii_lower eq_refl
                (playing (u "Q") (u "A") 2) g1 _ (u "x")
                sample_url sample_key sample_model (7 # 10)%Q no
                (playing_lookup _ _ _) eq_refl (fun _ => eq_refl))
      as (reply & st' & w' & Heq & Hsent & _ & _ & Hno & _).
    exists w'. split; [exact Heq |].
    destruct (Hno eq_refl) as (Hreply & _).
    rewrite Hsent, Hreply. vm_compute. reflexivity.
  - destruct (guess_classification (net_says (u " 是
")) ascii_lower eq_refl
                (playing (u "Q") (u "the twin did it") 2) g1 _ (u "x")
                sample_url sample_key sample_model (7 # 10)%Q (u "是")
                (playing_lookup _ _ _) eq_refl (fun _ => eq_refl))
      as (reply & st' & w' & Heq & Hsent & _ & Hyes & _).
    exists w'. split; [exact Heq |].
    destruct (Hyes eq_refl) as (_ & _ & Hanswer).
    destruct (Hanswer (u "the twin did it") eq_refl) as (Hreply & _).
    rewrite Hsent, Hreply. vm_compute. reflexivity.
  - destruct (guess_classification (net_says (u "maybe")) ascii_lower eq_refl
                (playing (u "Q") (u "A") 2) g1 _ (u "x")
                sample_url sample_key sample_model (7 # 10)%Q (u "maybe")
                (playing_lookup _ _ _) eq_refl (fun _ => eq_refl))
      as (reply & st' & w' & Heq & Hsent & _ & _ & _ & Hother & _).
    exists w'. split; [exact Heq |].
    destruct (Hother ltac:(vm_compute; discriminate) ltac:(vm_compute; discriminate))
      as (Hreply & _).
    rewrite Hsent, Hreply. reflexivity.
Defined.

(** ** C3 *)

(** A correct guess on a game in progress leaves the session active. *)
Lemma correct_guess_leaves_session_active :
  game_states
    (_handle_guess (net_says yes) ascii_lower g1 (u "x")
       sample_url sample_key sample_model (7 # 10)%Q (playing (u "Q") (u "A") 0)).2
    !! g1
  = Some {| current_question := Some (u "Q"); current_answer := Some (u "A");
            hints_used := Some 0%Z; game_active := Some true;
            guess_history := Some [ItemStr (u "x")]; game_over := Some true |}
  /\ ~ (exists st,
          game_states
            (_handle_guess (net_says yes) ascii_lower g1 (u "x")
               sample_url sample_key sample_model (7 # 10)%Q
               (playing (u "Q") (u "A") 0)).2 !! g1 = Some st
          /\ truthy (game_active st) = false /\ truthy (game_over st) = true).
Proof.
  assert (H : game_states
                (_handle_guess (net_says yes) ascii_lower g1 (u "x")
                   sample_url sample_key sample_model (7 # 10)%Q
                   (playing (u "Q") (u "A") 0)).2 !! g1
              = Some {| current_question := Some (u "Q");
                        current_answer := Some (u "A");
                        hints_used := Some 0%Z; game_active := Some true;
                        guess_history := Some [ItemStr (u "x")];
                        game_over := Some true |})
    by (vm_compute; reflexivity).
  split; [exact H |].
  intros (st & Hst & Hact & _). rewrite H in Hst. injection Hst as <-.
  discriminate Hact.
Qed.

Lemma correct_guess_sets_over_witness :
  exists w',
    _handle_guess (net_says yes) ascii_lower g1 (u "x")
      sample_url sample_key sample_model (7 # 10)%Q (playing (u "Q") (u "A") 0)
    = (Returned (true, u "猜谜完成", true), w')
    /\ game_states w' !! g1
       = Some {| current_question := Some (u "Q"); current_answer := Some (u "A");
                 hints_used := Some 0%Z; game_active := Some true;
                 guess_history := Some [ItemStr (u "x")]; game_over := Some true |}.
Proof.
  exact (correct_guess_sets_over (net_says yes) ascii_lower
           (playing (u "Q") (u "A") 0) g1 _ (u "x")
           sample_url sample_key sample_model (7 # 10)%Q yes
           (playing_lookup _ _ _) eq_refl (fun _ => eq_refl) eq_refl).
Defined.

(** ** C4 *)

Lemma hint_cap_witness :
  store_inv hints_within_cap
    (execute net_down ascii_lower (sample_command (Some kw_question) None)
       initial_world).2
  /\ exists reason text w',
       _handle_hint net_down g1 sample_url sample_key sample_model (7 # 10)%Q
         (playing (u "Q") (u "A") 3)
       = (Returned (false, reason, true), w')
       /\ game_states w' = game_states (playing (u "Q") (u "A") 3)
       /\ http_log w' = []
       /\ sent w' = [text].
Proof.
  destruct (hint_cap net_down ascii_lower) as (Hinv & _ & Hrej).
  split.
  - apply Hinv, reach_execute, reach_init.
  - apply (Hrej (playing (u "Q") (u "A") 3) g1 _ sample_url sample_key sample_model
             (7 # 10)%Q (playing_lookup _ _ _)).
    cbn. lia.
Defined.

(** ** C6 *)

(** With the network down every collaborator output is empty. A hint, a
    clue summary and a new game are then sent with nothing where the content
    should be, and a guess gets the unrelated reply: none of the four replies
    holds the fallback text. *)
Lemma empty_output_has_no_fallback :
  (forall n, answers_at net_down n [])
  /\ sent (_handle_hint net_down g1 sample_url sample_key sample_model (7 # 10)%Q
             (playing (u "Q") (u "A") 0)).2
     = [u "💡 提示 (1/3): "]
  /\ contains no_answer (u "💡 提示 (1/3): ") = false
  /\ sent (_handle_clues net_down g1 sample_url sample_key sample_model (7 # 10)%Q
             (playing (u "Q") (u "A") 0)).2
     = [u "📝 线索整理:
"]
  /\ contains no_answer (u "📝 线索整理:
") = false
  /\ sent (_start_new_game net_down g1 sample_url sample_key sample_model
             (7 # 10)%Q None initial_world).2
     = [u "🤔 海龟汤题目:

💡 提示次数: 0/3
💡 使用 /hgt 问题 <问题> 提问，/hgt 提示 获取提示，/hgt 猜谜 <答案> 猜测汤底"]
  /\ contains no_answer (u "🤔 海龟汤题目:

💡 提示次数: 0/3
💡 使用 /hgt 问题 <问题> 提问，/hgt 提示 获取提示，/hgt 猜谜 <答案> 猜测汤底") = false
  /\ sent (_handle_guess net_down ascii_lower g1 (u "x") sample_url sample_key
             sample_model (7 # 10)%Q (playing (u "Q") (u "A") 0)).2
     = [unrelated]
  /\ contains no_answer unrelated = false.
Proof.
  split; [intros n req; reflexivity |].
  do 7 (split; [vm_compute; reflexivity |]).
  vm_compute. reflexivity.
Qed.

Lemma empty_output_still_succeeds_witness :
  exists w',
    _handle_question net_down g1 (u "why") sample_url sample_key sample_model
      (7 # 10)%Q (playing (u "Q") (u "A") 0)
    = (Returned (true, u "问题回答完成", true), w')
    /\ sent w' = [u "❓ 你问: why
💡 回答: ❌ LLM未返回回答"].
Proof.
  destruct (empty_output_still_succeeds net_down ascii_lower eq_refl) as (Hask & _).
  destruct (Hask (playing (u "Q") (u "A") 0) g1 _ (u "why")
              sample_url sample_key sample_model (7 # 10)%Q
              (playing_lookup _ _ _) eq_refl (fun _ => eq_refl))
    as (w' & Heq & Hsent & _).
  exists w'. split; [exact Heq |]. rewrite Hsent. vm_compute. reflexivity.
Defined.

(** ** C7 *)

Lemma call_llm_api_fails_open_witness :
  exists w',
    _call_llm_api net_error prompt_question sample_url sample_key sample_model
      (7 # 10)%Q initial_world
    = (Returned [], w')
    /\ length (http_log w') = 1%nat.
Proof.
  destruct (call_llm_api_fails_open net_error prompt_question
              sample_url sample_key sample_model (7 # 10)%Q initial_world)
    as (text & w' & Heq & Hlog & _ & _ & _ & Hstatus & _).
  exists w'. rewrite Heq, Hlog, Hstatus by discriminate. split; reflexivity.
Defined.

(** ** C8 *)

Lemma start_guard_witness :
  exists w',
    _start_new_game net_down g1 sample_url sample_key sample_model (7 # 10)%Q None
      (playing (u "Q") (u "A") 0)
    = (Returned (false, u "已有进行中的游戏", true), w')
    /\ game_states w' = game_states (playing (u "Q") (u "A") 0)
    /\ http_log w' = []
    /\ sent w' = [already_running].
Proof.
  exact (start_guard net_down (playing (u "Q") (u "A") 0) g1 _
           sample_url sample_key sample_model (7 # 10)%Q None
           (playing_lookup _ _ _) eq_refl).
Defined.

(** ** C9 *)

Lemma exit_resets_witness :
  exists w',
    execute net_down ascii_lower (sample_command (Some kw_exit) None)
      (playing (u "Q") (u "A") 2)
    = (Returned (true, u "退出游戏", true), w')
    /\ game_states w' !! g1 = Some exited.
Proof.
  destruct (exit_resets net_down ascii_lower) as (_ & Hexit).
  exact (Hexit (sample_command (Some kw_exit) None) sample_stream
           sample_url sample_key (playing (u "Q") (u "A") 2)
           (sample_context_ok _ _) eq_refl).
Defined.

(** ** C10 *)

Lemma keyword_without_argument_starts_game_witness :
  execute net_down ascii_lower (sample_command (Some kw_guess) (Some (u " ")))
    (playing (u "Q") (u "A") 0)
  = (Returned (false, u "已有进行中的游戏", true),
     said already_running (playing (u "Q") (u "A") 0)).
Proof.
  destruct (keyword_without_argument_starts_game net_down ascii_lower
              (sample_command (Some kw_guess) (Some (u " "))) sample_stream
              sample_url sample_key (playing (u "Q") (u "A") 0)
              (sample_context_ok _ _) (or_intror eq_refl) eq_refl)
    as (_ & Hrej).
  exact (Hrej _ (playing_lookup _ _ _) eq_refl).
Defined.

(** * Further properties of the handlers *)

Ltac footprint_requests :=
  first [ exists []; split; [symmetry; apply app_nil_r | cbn; lia]
        | eexists [_]; split; [reflexivity | cbn; lia]
        | eexists [_; _]; split; [rewrite <- app_assoc; reflexivity | cbn; lia] ].

Ltac footprint_done :=
  unfold footprint; world_simpl;
  split; [intros g' Hne; rewrite ?lookup_insert_ne by (symmetry; exact Hne || exact Hne);
          reflexivity |];
  split; [intros Hsome; rewrite ?lookup_insert_eq; first [exact Hsome | eexists; reflexivity] |];
  split; [footprint_requests |];
  first [ split; [reflexivity | eexists; reflexivity] | reflexivity ].

Section Footprints.

Variable http_post : nat -> request -> http_outcome.
Variable lower : str -> str.

Lemma start_footprint group_id api_url api_key model temperature stream_id w :
  footprint group_id w
    (_start_new_game http_post group_id api_url api_key model temperature stream_id w).
Proof.
  unfold _start_new_game. py_unfold.
  destruct (truthy _ && negb _); [footprint_done |].
  rewrite _call_llm_api_eq. py_unfold. rewrite _call_llm_api_eq.
  footprint_done.
Qed.

Lemma question_footprint group_id question api_url api_key model temperature w :
  footprint group_id w
    (_handle_question http_post group_id question api_url api_key model temperature w).
Proof.
  unfold _handle_question. py_unfold.
  destruct (game_states w !! group_id) as [st |] eqn:E; [| footprint_done].
  destruct (truthy (game_active st)); cbn [negb]; [| apply start_footprint].
  rewrite _call_llm_api_eq. footprint_done.
Qed.

Lemma hint_footprint group_id api_url api_key model temperature w :
  footprint group_id w
    (_handle_hint http_post group_id api_url api_key model temperature w).
Proof.
  unfold _handle_hint. py_unfold.
  destruct (game_states w !! group_id) as [st |] eqn:E; [| footprint_done].
  destruct (truthy (game_active st)); cbn [negb]; [| footprint_done].
  destruct (3 <=? _)%Z; [footprint_done |].
  rewrite _call_llm_api_eq. footprint_done.
Qed.

Lemma clues_footprint group_id api_url api_key model temperature w :
  footprint group_id w
    (_handle_clues http_post group_id api_url api_key model temperature w).
Proof.
  unfold _handle_clues. py_unfold.
  destruct (game_states w !! group_id) as [st |] eqn:E; [| footprint_done].
  destruct (truthy (game_active st)); cbn [negb]; [| footprint_done].
  destruct (contents _); [| footprint_done].
  rewrite _call_llm_api_eq. footprint_done.
Qed.

Lemma guess_footprint group_id guess api_url api_key model temperature w :
  footprint group_id w
    (_handle_guess http_post lower group_id guess api_url api_key model temperature w).
Proof.
  unfold _handle_guess. py_unfold.
  destruct (game_states w !! group_id) as [st |] eqn:E; [| footprint_done].
  destruct (truthy (game_active st)); cbn [negb]; [| footprint_done].
  destruct (truthy (game_over st)); [footprint_done |].
  rewrite _call_llm_api_eq. py_unfold.
  destruct (decide _); [| destruct (decide _)]; footprint_done.
Qed.

Lemma exit_footprint group_id w : footprint group_id w (_handle_exit group_id w).
Proof. unfold _handle_exit. py_unfold. footprint_done. Qed.

Lemma footprint_after_create g w res :
  footprint g (stored g empty_state w) res -> footprint g w res.
Proof.
  unfold footprint. world_simpl. intros (Hother & Hsome & Hlog & Hsent).
  split; [intros g' Hne; rewrite (Hother g' Hne); apply lookup_insert_ne; congruence |].
  split; [intros _; apply Hsome; rewrite lookup_insert_eq; eexists; reflexivity |].
  split; assumption.
Qed.

Ltac footprint_branches Hst :=
  repeat match goal with
         | |- context [if ?b then _ else _] => destruct b eqn:?
         end;
  try rewrite Hst; py_unfold; world_simpl;
  repeat match goal with
         | |- context [if ?b then _ else _] => destruct b eqn:?
         end;
  first [ apply question_footprint | apply hint_footprint | apply clues_footprint
        | apply guess_footprint | apply exit_footprint | apply start_footprint
        | footprint_done ].

(** The footprint of a command, and the session its group has afterwards
    when the context checks pass. *)
Lemma execute_footprint self w g :
  (forall cs, match chat_stream self with
              | Some c => Some c
              | None => message_chat_stream self
              end = Some cs -> group_id_for cs = g) ->
  footprint g w (execute http_post lower self w).
Proof.
  intros Hg. unfold execute. cbv zeta.
  destruct (match chat_stream self with
            | Some c => Some c
            | None => message_chat_stream self
            end) as [cs |]; [| py_unfold; footprint_done].
  destruct (negb (default true (plugin_enabled (cfg self)))); [py_unfold; footprint_done |].
  destruct (negb (nonempty _) || negb (nonempty _)); [py_unfold; footprint_done |].
  fold (group_id_for cs). rewrite (Hg cs eq_refl). clear Hg.
  py_unfold.
  destruct (game_states w !! g) as [st |] eqn:Hst; cbn [default from_option id].
  - footprint_branches Hst.
  - apply footprint_after_create.
    assert (Hst1 : game_states (stored g empty_state w) !! g = Some empty_state)
      by apply lookup_insert_eq.
    change {| game_states := <[g := empty_state]> (game_states w);
              sent := sent w; http_log := http_log w |}
      with (stored g empty_state w).
    generalize dependent (stored g empty_state w). intros w1 Hst1.
    footprint_branches Hst1.
Qed.

End Footprints.

(** ** What the matcher accepts *)

Lemma rplus_space_nil f whole caps k : rmatch f whole (RPlus RSpace) [] caps k = None.
Proof. reflexivity. Qed.

Lemma rplus_space_cons f whole x s caps k :
  rmatch f whole (RPlus RSpace) (x :: s) caps k
  = if isspace x then
      match rmatch f whole (RPlus RSpace) s caps k with
      | Some c => Some c
      | None => k s caps
      end
    else None.
Proof.
  cbn [rmatch length]. destruct (isspace x); [| reflexivity].
  assert (H : (length s <? S (length s))%nat = true) by (apply Nat.ltb_lt; lia).
  rewrite H. reflexivity.
Qed.

Lemma rplus_dot_nil f whole caps k : rmatch f whole (RPlus RDot) [] caps k = None.
Proof. reflexivity. Qed.

Lemma rplus_dot_cons f whole x s caps k :
  rmatch f whole (RPlus RDot) (x :: s) caps k
  = if dotall f || negb (x =? 10) then
      match rmatch f whole (RPlus RDot) s caps k with
      | Some c => Some c
      | None => k s caps
      end
    else None.
Proof.
  cbn [rmatch length]. destruct (dotall f || negb (x =? 10)); [| reflexivity].
  assert (H : (length s <? S (length s))%nat = true) by (apply Nat.ltb_lt; lia).
  rewrite H. reflexivity.
Qed.

(** Greedy [\s+]: a run of white space followed by something that is not
    white space is taken whole when the rest of the pattern then matches. *)
Lemma rplus_space_greedy f whole ws s caps k c :
  ws <> [] ->
  Forall (fun x => isspace x = true) ws ->
  match s with [] => True | x :: _ => isspace x = false end ->
  k s caps = Some c ->
  rmatch f whole (RPlus RSpace) (ws ++ s) caps k = Some c.
Proof.
  intros Hne Hws Hs Hk.
  assert (Hstop : rmatch f whole (RPlus RSpace) s caps k = None).
  { destruct s as [| x s]; [reflexivity |]. rewrite rplus_space_cons, Hs. reflexivity. }
  induction Hws as [| x ws Hx Hws IH]; [congruence |].
  cbn [app]. rewrite rplus_space_cons, Hx.
  destruct ws as [| y ws].
  - cbn [app]. rewrite Hstop. exact Hk.
  - rewrite IH by discriminate. reflexivity.
Qed.

(** Greedy [.+] up to the end of the text. *)
Lemma rplus_dot_greedy f whole v caps k c :
  v <> [] ->
  Forall (fun x => dotall f || negb (x =? 10) = true) v ->
  k [] caps = Some c ->
  rmatch f whole (RPlus RDot) v caps k = Some c.
Proof.
  intros Hne Hv Hk.
  induction Hv as [| x v Hx Hv IH]; [congruence |].
  rewrite rplus_dot_cons, Hx.
  destruct v as [| y v].
  - rewrite rplus_dot_nil. exact Hk.
  - rewrite IH by discriminate. reflexivity.
Qed.

Lemma char_matches_refl f c : char_matches f c c = true.
Proof. unfold char_matches. destruct (ignorecase f); apply N.eqb_refl. Qed.

Lemma literal_self f whole l s caps k :
  rmatch f whole (literal l) (l ++ s) caps k = k s caps.
Proof.
  induction l as [| c l IH]; [reflexivity |].
  cbn [literal foldr rmatch app]. rewrite char_matches_refl. exact IH.
Qed.

(** The alternation picks the keyword the text continues with. *)
Lemma keyword_alternative f whole kw tail caps k c :
  kw ∈ keywords ->
  k tail caps = Some c ->
  rmatch f whole (one_of keywords) (kw ++ tail) caps k = Some c.
Proof.
  unfold keywords. rewrite !elem_of_cons, elem_of_nil. intros Hin Hk.
  destruct f as [[|] [|]];
    repeat (destruct Hin as [-> | Hin]); try destruct Hin;
    vm_compute; vm_compute in Hk; rewrite Hk; reflexivity.
Qed.

Lemma rmatch_seq f whole r1 r2 s caps k :
  rmatch f whole (RSeq r1 r2) s caps k
  = rmatch f whole r1 s caps (fun s' caps' => rmatch f whole r2 s' caps' k).
Proof. reflexivity. Qed.

Lemma rmatch_group f whole name r s caps k :
  rmatch f whole (RGroup name r) s caps k
  = rmatch f whole r s caps
      (fun s' caps' => k s' ((name, take (length s - length s') s) :: caps')).
Proof. reflexivity. Qed.

Lemma rmatch_opt f whole r s caps k :
  rmatch f whole (ROpt r) s caps k
  = match rmatch f whole r s caps k with
    | Some c => Some c
    | None => k s caps
    end.
Proof. reflexivity. Qed.

Lemma keyword_starts_with_text kw tail :
  kw ∈ keywords ->
  match kw ++ tail with [] => True | x :: _ => isspace x = false end.
Proof.
  unfold keywords. rewrite !elem_of_cons, elem_of_nil. intros Hin.
  repeat (destruct Hin as [-> | Hin]); try destruct Hin; reflexivity.
Qed.

Lemma take_all_consumed (v : str) : take (length v - length (@nil N)) v = v.
Proof. cbn [length]. rewrite Nat.sub_0_r. apply firstn_all. Qed.

(** The pattern from the action group on, on a text that begins with a
    keyword and ends there. *)
Lemma pattern_tail_keyword_only f whole ws kw :
  ws <> [] ->
  Forall (fun x => isspace x = true) ws ->
  kw ∈ keywords ->
  rmatch f whole
    (RSeq (RSeq (RPlus RSpace) (RGroup (u "action") (one_of keywords)))
       (RSeq (ROpt (RSeq (RPlus RSpace) (RGroup (u "rest") (RPlus RDot)))) REnd))
    (ws ++ kw) [] (fun _ caps => Some caps)
  = Some [(u "action", kw)].
Proof.
  intros Hne Hws Hin.
  replace (ws ++ kw) with (ws ++ kw ++ []) by (rewrite app_nil_r; reflexivity).
  rewrite !rmatch_seq.
  apply rplus_space_greedy; [exact Hne | exact Hws | apply keyword_starts_with_text, Hin |].
  rewrite rmatch_group.
  apply keyword_alternative; [exact Hin |].
  rewrite take_consumed, rmatch_seq, rmatch_opt, rmatch_seq, rplus_space_nil.
  reflexivity.
Qed.

Lemma pattern_tail_with_argument f whole ws kw ws' x v :
  ws <> [] ->
  Forall (fun x => isspace x = true) ws ->
  kw ∈ keywords ->
  ws' <> [] ->
  Forall (fun x => isspace x = true) ws' ->
  isspace x = false ->
  Forall (fun x => dotall f || negb (x =? 10) = true) (x :: v) ->
  rmatch f whole
    (RSeq (RSeq (RPlus RSpace) (RGroup (u "action") (one_of keywords)))
       (RSeq (ROpt (RSeq (RPlus RSpace) (RGroup (u "rest") (RPlus RDot)))) REnd))
    (ws ++ kw ++ ws' ++ x :: v) [] (fun _ caps => Some caps)
  = Some [(u "rest", x :: v); (u "action", kw)].
Proof.
  intros Hne Hws Hin Hne' Hws' Hx Hv.
  rewrite !rmatch_seq.
  apply rplus_space_greedy; [exact Hne | exact Hws | apply keyword_starts_with_text, Hin |].
  rewrite rmatch_group.
  apply keyword_alternative; [exact Hin |].
  rewrite take_consumed, rmatch_seq, rmatch_opt, rmatch_seq.
  rewrite (rplus_space_greedy f whole ws' (x :: v) _ _
             [(u "rest", x :: v); (u "action", kw)]); try assumption; [reflexivity |].
  rewrite rmatch_group.
  apply rplus_dot_greedy; [discriminate | exact Hv |].
  rewrite take_all_consumed. reflexivity.
Qed.

Lemma rmatch_begin f whole caps k : rmatch f whole RBegin whole caps k = k whole caps.
Proof. cbn [rmatch]. rewrite Nat.eqb_refl. reflexivity. Qed.

(** [/hgt], white space and a keyword: accepted, with the keyword as the
    action and no rest. *)
Lemma pattern_accepts_keyword f ws kw :
  ws <> [] ->
  Forall (fun x => isspace x = true) ws ->
  kw ∈ keywords ->
  re_match f command_pattern (u "/hgt" ++ ws ++ kw) = Some [(u "action", kw)].
Proof.
  intros Hne Hws Hin. unfold re_match, command_pattern.
  rewrite rmatch_seq, rmatch_begin, rmatch_seq, literal_self.
  exact (pattern_tail_keyword_only f _ ws kw Hne Hws Hin).
Qed.

(** The same followed by white space and a text that starts with a
    character that is not white space and holds nothing [.] refuses:
    accepted, with the text as the rest. *)
Lemma pattern_accepts_argument f ws kw ws' x v :
  ws <> [] ->
  Forall (fun x => isspace x = true) ws ->
  kw ∈ keywords ->
  ws' <> [] ->
  Forall (fun x => isspace x = true) ws' ->
  isspace x = false ->
  Forall (fun x => dotall f || negb (x =? 10) = true) (x :: v) ->
  re_match f command_pattern (u "/hgt" ++ ws ++ kw ++ ws' ++ x :: v)
  = Some [(u "rest", x :: v); (u "action", kw)].
Proof.
  intros Hne Hws Hin Hne' Hws' Hx Hv. unfold re_match, command_pattern.
  rewrite rmatch_seq, rmatch_begin, rmatch_seq, literal_self.
  exact (pattern_tail_with_argument f _ ws kw ws' x v Hne Hws Hin Hne' Hws' Hx Hv).
Qed.

(** ** The full shape of an accepted message *)

Lemma matches_plus_class f whole r (p : char -> bool) :
  (forall s caps s' caps',
     matches f whole r s caps s' caps' -> exists x, s = x :: s' /\ p x = true) ->
  forall s caps s' caps',
    matches f whole (RPlus r) s caps s' caps' ->
    exists l, s = l ++ s' /\ l <> [] /\ Forall (fun x => p x = true) l.
Proof.
  intros Hone s caps s' caps' H.
  remember (RPlus r) as R eqn:ER.
  induction H as
    [| | | | | | | | | r0 s caps s' caps' H1 _
     | r0 s caps s1 caps1 s2 caps2 H1 _ _ IH | | |];
    try discriminate; injection ER as ->.
  - apply Hone in H1 as (x & -> & Hx).
    exists [x]. repeat split; [discriminate | repeat constructor; exact Hx].
  - apply Hone in H1 as (x & -> & Hx).
    destruct (IH eq_refl) as (l & -> & _ & Hl).
    exists (x :: l). repeat split; [discriminate | constructor; assumption].
Qed.

Lemma matches_spaces f whole s caps s' caps' :
  matches f whole (RPlus RSpace) s caps s' caps' ->
  exists ws, s = ws ++ s' /\ ws <> [] /\ Forall (fun x => isspace x = true) ws.
Proof.
  apply matches_plus_class. intros s0 c0 s1 c1 H. inversion H; subst. eauto.
Qed.

Lemma matches_dots f whole s caps s' caps' :
  matches f whole (RPlus RDot) s caps s' caps' ->
  exists v, s = v ++ s' /\ v <> []
            /\ Forall (fun x => dotall f || negb (x =? 10) = true) v.
Proof.
  apply (matches_plus_class f whole RDot (fun x => dotall f || negb (x =? 10))).
  intros s0 c0 s1 c1 H. inversion H; subst. eauto.
Qed.

Lemma matches_command_full f whole prefix alts text s' caps' :
  group_free prefix = true ->
  group_free alts = true ->
  matches f whole
    (RSeq RBegin
    (RSeq prefix
    (RSeq (RSeq (RPlus RSpace) (RGroup (u "action") alts))
    (RSeq (ROpt (RSeq (RPlus RSpace) (RGroup (u "rest") (RPlus RDot)))) REnd))))
    text [] s' caps' ->
  length text = length whole
  /\ exists p ws a tail,
       text = p ++ ws ++ a ++ tail
       /\ matches f whole prefix (p ++ ws ++ a ++ tail) [] (ws ++ a ++ tail) []
       /\ ws <> [] /\ Forall (fun x => isspace x = true) ws
       /\ matches f whole alts (a ++ tail) [] tail []
       /\ g_action (groupdict caps') = Some a
       /\ argument_shape f tail (g_rest (groupdict caps')).
Proof.
  intros Hprefix_free Halts_free H.
  inversion H as [| | | | | | ? ? ? ? s1 c1 ? ? Hbegin H1 | | | | | | |]; subst; clear H.
  inversion Hbegin as [| | | ? ? Hlen | | | | | | | | | |]; subst; clear Hbegin.
  split; [exact Hlen |].
  inversion H1 as [| | | | | | ? ? ? ? s2 c2 ? ? Hprefix H2 | | | | | | |]; subst; clear H1.
  pose proof (matches_group_free _ _ _ _ _ _ _ Hprefix Hprefix_free) as ->.
  destruct (matches_consumes _ _ _ _ _ _ _ Hprefix) as [p ->].
  inversion H2 as [| | | | | | ? ? ? ? s3 c3 ? ? Hact H3 | | | | | | |]; subst; clear H2.
  inversion Hact as [| | | | | | ? ? ? ? s4 c4 ? ? Hws Hgrp | | | | | | |]; subst; clear Hact.
  pose proof (matches_group_free _ _ _ _ _ _ _ Hws eq_refl) as ->.
  apply matches_spaces in Hws as (ws & -> & Hne & Hws).
  inversion Hgrp as [| | | | | | | | | | | | | ? ? ? ? ? c5 Halt]; subst; clear Hgrp.
  pose proof (matches_group_free _ _ _ _ _ _ _ Halt Halts_free) as ->.
  destruct (matches_consumes _ _ _ _ _ _ _ Halt) as [a ->].
  rewrite take_consumed in H3.
  exists p, ws, a, s3. split; [reflexivity |]. split; [exact Hprefix |].
  split; [exact Hne |]. split; [exact Hws |]. split; [exact Halt |].
  inversion H3 as [| | | | | | ? ? ? ? s6 c6 ? ? Hopt Hend | | | | | | |]; subst; clear H3.
  inversion Hend as [| | | | ? ? Hfinal | | | | | | | | |]; subst; clear Hend.
  inversion Hopt as [| | | | | | | | | | | ? ? ? ? ? Hsome | |]; subst; clear Hopt;
    [| split; [reflexivity | apply no_argument, Hfinal]].
  inversion Hsome as [| | | | | | ? ? ? ? s7 c7 ? ? Hws' Hrest | | | | | | |]; subst;
    clear Hsome.
  pose proof (matches_group_free _ _ _ _ _ _ _ Hws' eq_refl) as ->.
  apply matches_spaces in Hws' as (ws' & -> & Hne' & Hws').
  inversion Hrest as [| | | | | | | | | | | | | ? ? ? ? ? c8 Hdots]; subst; clear Hrest.
  pose proof (matches_group_free _ _ _ _ _ _ _ Hdots eq_refl) as ->.
  apply matches_dots in Hdots as (v & -> & Hv & Hdot).
  split; [reflexivity |].
  change (g_rest (groupdict [(u "rest", take (length (v ++ s') - length s') (v ++ s'));
                             (u "action", a)]))
    with (Some (take (length (v ++ s') - length s') (v ++ s'))).
  rewrite take_consumed. apply with_argument; assumption.
Qed.

(** ** Stripping *)

Lemma lstrip_nonspace c s : isspace c = false -> lstrip (c :: s) = c :: s.
Proof. intros H. cbn [lstrip]. rewrite H. reflexivity. Qed.

Lemma lstrip_idem s : lstrip (lstrip s) = lstrip s.
Proof.
  induction s as [| c s IH]; [reflexivity |].
  cbn [lstrip]. destruct (isspace c) eqn:E; [exact IH |].
  apply lstrip_nonspace, E.
Qed.

Lemma lstrip_snoc_nonspace s c :
  isspace c = false -> lstrip (s ++ [c]) = lstrip s ++ [c].
Proof.
  intros Hc. induction s as [| x s IH]; cbn [app lstrip].
  - rewrite Hc. reflexivity.
  - destruct (isspace x); [exact IH | reflexivity].
Qed.

Lemma rstrip_cons_nonspace c s : isspace c = false -> rstrip (c :: s) = c :: rstrip s.
Proof.
  intros Hc. unfold rstrip. cbn [rev].
  rewrite lstrip_snoc_nonspace by exact Hc. rewrite rev_app_distr. reflexivity.
Qed.

Lemma strip_cons_nonspace c s : isspace c = false -> strip (c :: s) = c :: rstrip s.
Proof.
  intros Hc. unfold strip. rewrite lstrip_nonspace by exact Hc.
  apply rstrip_cons_nonspace, Hc.
Qed.

Lemma rstrip_idem s : rstrip (rstrip s) = rstrip s.
Proof. unfold rstrip. rewrite rev_involutive, lstrip_idem. reflexivity. Qed.

(** What [lstrip] leaves is empty or starts with a character that is not
    white space. *)
Lemma lstrip_head s :
  match lstrip s with [] => True | c :: _ => isspace c = false end.
Proof.
  induction s as [| c s IH]; [exact I |].
  cbn [lstrip]. destruct (isspace c) eqn:E; [exact IH | exact E].
Qed.

Lemma strip_idem s : strip (strip s) = strip s.
Proof.
  unfold strip at 2 3. pose proof (lstrip_head s) as H.
  destruct (lstrip s) as [| c t]; [reflexivity |].
  rewrite rstrip_cons_nonspace by exact H.
  rewrite strip_cons_nonspace by exact H. rewrite rstrip_idem. reflexivity.
Qed.

Lemma lstrip_blank s : Forall (fun x => isspace x = true) s -> lstrip s = [].
Proof. induction 1 as [| x s Hx _ IH]; [reflexivity |]. cbn [lstrip]. rewrite Hx. exact IH. Qed.

Lemma strip_only_blank s : Forall (fun x => isspace x = true) s <-> strip s = [].
Proof.
  split.
  - intros H. unfold strip. rewrite (lstrip_blank s H). reflexivity.
  - unfold strip. induction s as [| c s IH]; [constructor |].
    cbn [lstrip]. destruct (isspace c) eqn:E.
    + intros H. constructor; [exact E | exact (IH H)].
    + rewrite rstrip_cons_nonspace by exact E. discriminate.
Qed.

(** ** Commands as a whole *)

Ltac execute_enter self cs Hctx :=
  destruct Hctx as (Hcs & Hen & Hurl & Hurl' & Hkey & Hkey');
  unfold execute; cbv zeta;
  fold (action_of self) (rest_of self) (model_of self) (temperature_of self);
  rewrite Hcs, Hen, Hurl, Hkey;
  rewrite (nonempty_true _ Hurl'), (nonempty_true _ Hkey'); cbn [negb orb];
  fold (group_id_for cs);
  py_unfold; unfold ensured.

(** Comparisons between keywords are settled by computation. *)
Ltac decide_keywords :=
  repeat match goal with
         | |- context [bool_decide (?a = ?b)] =>
           let v := eval vm_compute in (bool_decide (a = b)) in
           change (bool_decide (a = b)) with v
         end;
  cbn [andb]; cbv beta iota.

Section Coverage.

Variable http_post : nat -> request -> http_outcome.
Variable lower : str -> str.

Lemma execute_question self cs api_url api_key w :
  context_ok self cs api_url api_key ->
  action_of self = kw_question ->
  rest_of self <> [] ->
  execute http_post lower self w
  = _handle_question http_post (group_id_for cs) (rest_of self) api_url api_key
      (model_of self) (temperature_of self) (ensured (group_id_for cs) w).
Proof.
  intros Hctx Hact Hrest. execute_enter self cs Hctx.
  rewrite Hact, (nonempty_true _ Hrest).
  destruct (game_states w !! group_id_for cs); reflexivity.
Qed.

Lemma execute_hint self cs api_url api_key w :
  context_ok self cs api_url api_key ->
  action_of self = kw_hint ->
  execute http_post lower self w
  = _handle_hint http_post (group_id_for cs) api_url api_key
      (model_of self) (temperature_of self) (ensured (group_id_for cs) w).
Proof.
  intros Hctx Hact. execute_enter self cs Hctx. rewrite Hact.
  destruct (game_states w !! group_id_for cs); reflexivity.
Qed.

Lemma execute_clues self cs api_url api_key w :
  context_ok self cs api_url api_key ->
  action_of self = kw_clues ->
  execute http_post lower self w
  = _handle_clues http_post (group_id_for cs) api_url api_key
      (model_of self) (temperature_of self) (ensured (group_id_for cs) w).
Proof.
  intros Hctx Hact. execute_enter self cs Hctx. rewrite Hact.
  destruct (game_states w !! group_id_for cs); reflexivity.
Qed.

Lemma execute_guess self cs api_url api_key w :
  context_ok self cs api_url api_key ->
  action_of self = kw_guess ->
  rest_of self <> [] ->
  execute http_post lower self w
  = _handle_guess http_post lower (group_id_for cs) (rest_of self) api_url api_key
      (model_of self) (temperature_of self) (ensured (group_id_for cs) w).
Proof.
  intros Hctx Hact Hrest. execute_enter self cs Hctx.
  rewrite Hact, (nonempty_true _ Hrest).
  destruct (game_states w !! group_id_for cs); reflexivity.
Qed.

Lemma execute_help self cs api_url api_key w :
  context_ok self cs api_url api_key ->
  action_of self = kw_help ->
  execute http_post lower self w
  = (Returned (true, u "显示帮助", true),
     said command_help (ensured (group_id_for cs) w)).
Proof.
  intros Hctx Hact. execute_enter self cs Hctx. rewrite Hact.
  destruct (game_states w !! group_id_for cs); reflexivity.
Qed.

Lemma execute_puzzle self cs api_url api_key w :
  context_ok self cs api_url api_key ->
  action_of self = kw_puzzle ->
  execute http_post lower self w
  = let st := default empty_state (game_states w !! group_id_for cs) in
    if truthy (game_active st) then
      (Returned (true, u "查看汤面", true),
       said (u "🍲 当前海龟汤题目:
" ++ fmt (current_question st)) (ensured (group_id_for cs) w))
    else
      (Returned (false, u "无游戏", true), said no_game (ensured (group_id_for cs) w)).
Proof.
  intros Hctx Hact. execute_enter self cs Hctx. rewrite Hact.
  destruct (game_states w !! group_id_for cs) as [st |] eqn:E;
    cbn [default from_option id].
  - decide_keywords. rewrite E. destruct (truthy (game_active st)); reflexivity.
  - decide_keywords. world_simpl. rewrite lookup_insert_eq. reflexivity.
Qed.

Lemma execute_reveal_inactive self cs api_url api_key w :
  context_ok self cs api_url api_key ->
  action_of self = kw_reveal ->
  truthy (game_active (default empty_state (game_states w !! group_id_for cs))) = false ->
  execute http_post lower self w
  = (Returned (false, u "无游戏", true),
     said (u "❌ 当前没有正在进行的游戏。请先使用 /hgt 生成题目。")
       (ensured (group_id_for cs) w)).
Proof.
  intros Hctx Hact Hinactive. execute_enter self cs Hctx. rewrite Hact.
  destruct (game_states w !! group_id_for cs) as [st |] eqn:E;
    cbn [default from_option id] in *; [rewrite Hinactive |]; reflexivity.
Qed.

(** X1. The three context checks come before anything else, in this
    order: no chat stream, plugin disabled, API address or key missing.
    Each rejects the command whatever its action, sends one message, and
    neither touches the store nor posts a request. *)
Theorem context_checks_reject self w :
  (stream_of self = None ->
   execute http_post lower self w
   = (Returned (false, u "缺少chat_stream", true),
      said (u "❌ 无法获取聊天上下文信息") w))
  /\ (is_Some (stream_of self) ->
      plugin_enabled (cfg self) = Some false ->
      execute http_post lower self w
      = (Returned (false, u "插件未启用", true), said (u "❌ 插件已被禁用") w))
  /\ (is_Some (stream_of self) ->
      default true (plugin_enabled (cfg self)) = true ->
      default [] (llm_api_url (cfg self)) = []
      \/ default [] (llm_api_key (cfg self)) = [] ->
      execute http_post lower self w
      = (Returned (false, u "API配置错误", true), said (u "❌ LLM API 配置不完整") w)).
Proof.
  unfold stream_of, execute. cbv zeta. repeat split.
  - intros ->. reflexivity.
  - intros [cs ->] ->. reflexivity.
  - intros [cs ->] -> Hmissing. cbn [negb].
    destruct Hmissing as [-> | ->]; cbn [nonempty negb orb];
      [| rewrite orb_true_r]; reflexivity.
Qed.

Lemma execute_footprint_stream self w cs :
  stream_of self = Some cs ->
  footprint (group_id_for cs) w (execute http_post lower self w).
Proof.
  intros Hcs. apply execute_footprint. intros cs' Hcs'.
  unfold stream_of in Hcs. rewrite Hcs in Hcs'. injection Hcs' as <-. reflexivity.
Qed.

Lemma execute_footprint_no_stream self w g :
  stream_of self = None ->
  footprint g w (execute http_post lower self w).
Proof.
  intros Hcs. apply execute_footprint. intros cs' Hcs'.
  unfold stream_of in Hcs. rewrite Hcs in Hcs'. discriminate Hcs'.
Qed.

(** X2. A command reads and writes the session of its own group only:
    every other group's session is afterwards what it was, and no session
    is ever removed from the store. *)
Theorem sessions_isolated_and_kept self w :
  (forall g',
     (forall cs, stream_of self = Some cs -> group_id_for cs <> g') ->
     game_states (execute http_post lower self w).2 !! g' = game_states w !! g')
  /\ (forall g,
        is_Some (game_states w !! g) ->
        is_Some (game_states (execute http_post lower self w).2 !! g)).
Proof.
  split.
  - intros g' Hother. destruct (stream_of self) as [cs |] eqn:Hcs.
    + destruct (execute_footprint_stream self w cs Hcs) as (Hframe & _).
      apply Hframe. intros ->. exact (Hother cs eq_refl eq_refl).
    + destruct (execute_footprint_no_stream self w (0 :: g') Hcs) as (Hframe & _).
      apply Hframe. intros H. apply (f_equal length) in H. cbn in H. lia.
  - intros g Hsome. destruct (stream_of self) as [cs |] eqn:Hcs.
    + destruct (execute_footprint_stream self w cs Hcs) as (Hframe & Hkept & _).
      destruct (decide (g = group_id_for cs)) as [-> | Hne]; [exact (Hkept Hsome) |].
      rewrite (Hframe g Hne). exact Hsome.
    + destruct (execute_footprint_no_stream self w g Hcs) as (_ & Hkept & _).
      exact (Hkept Hsome).
Qed.

(** X3. A command that returns has sent exactly one message and returns
    the intercept flag set; a command that raises has sent none. Either way
    it has posted at most two requests. *)
Theorem command_replies_once self w :
  match (execute http_post lower self w).1 with
  | Returned (_, _, intercept) =>
    intercept = true
    /\ exists text, sent (execute http_post lower self w).2 = sent w ++ [text]
  | Raised _ => sent (execute http_post lower self w).2 = sent w
  end
  /\ exists reqs,
       http_log (execute http_post lower self w).2 = http_log w ++ reqs
       /\ (length reqs <= 2)%nat.
Proof.
  destruct (stream_of self) as [cs |] eqn:Hcs.
  - destruct (execute_footprint_stream self w cs Hcs) as (_ & _ & Hlog & Hsent).
    split; assumption.
  - destruct (execute_footprint_no_stream self w [] Hcs) as (_ & _ & Hlog & Hsent).
    split; assumption.
Qed.

(** X4. With the context checks passed, each keyword reaches its handler
    on the store with the session dict created: Ask and Guess when a text
    follows, Hint, Clues and Exit whatever follows. *)
Theorem keywords_route_to_handlers self cs api_url api_key w :
  context_ok self cs api_url api_key ->
  (action_of self = kw_question -> rest_of self <> [] ->
   execute http_post lower self w
   = _handle_question http_post (group_id_for cs) (rest_of self) api_url api_key
       (model_of self) (temperature_of self) (ensured (group_id_for cs) w))
  /\ (action_of self = kw_guess -> rest_of self <> [] ->
      execute http_post lower self w
      = _handle_guess http_post lower (group_id_for cs) (rest_of self) api_url api_key
          (model_of self) (temperature_of self) (ensured (group_id_for cs) w))
  /\ (action_of self = kw_hint ->
      execute http_post lower self w
      = _handle_hint http_post (group_id_for cs) api_url api_key
          (model_of self) (temperature_of self) (ensured (group_id_for cs) w))
  /\ (action_of self = kw_clues ->
      execute http_post lower self w
      = _handle_clues http_post (group_id_for cs) api_url api_key
          (model_of self) (temperature_of self) (ensured (group_id_for cs) w))
  /\ (action_of self = kw_exit ->
      execute http_post lower self w
      = _handle_exit (group_id_for cs) (ensured (group_id_for cs) w)).
Proof.
  intros Hctx. repeat split; intros.
  - apply execute_question; assumption.
  - apply execute_guess; assumption.
  - apply execute_hint; assumption.
  - apply execute_clues; assumption.
  - apply execute_exit with (api_url := api_url) (api_key := api_key); assumption.
Qed.

Lemma ensured_lookup g w :
  game_states (ensured g w) !! g = Some (default empty_state (game_states w !! g)).
Proof.
  unfold ensured. destruct (game_states w !! g) eqn:E; [exact E |].
  apply lookup_insert_eq.
Qed.

Lemma ensured_existing g w st : game_states w !! g = Some st -> ensured g w = w.
Proof. intros H. unfold ensured. rewrite H. reflexivity. Qed.

Lemma hint_without_game w group_id st api_url api_key model temperature :
  game_states w !! group_id = Some st ->
  truthy (game_active st) = false ->
  _handle_hint http_post group_id api_url api_key model temperature w
  = (Returned (false, u "无游戏", true), said no_game w).
Proof.
  intros Hst Hact. unfold _handle_hint. py_unfold. rewrite Hst, Hact. reflexivity.
Qed.

Lemma clues_without_game w group_id st api_url api_key model temperature :
  game_states w !! group_id = Some st ->
  truthy (game_active st) = false ->
  _handle_clues http_post group_id api_url api_key model temperature w
  = (Returned (false, u "无游戏", true), said no_game w).
Proof.
  intros Hst Hact. unfold _handle_clues. py_unfold. rewrite Hst, Hact. reflexivity.
Qed.

Lemma guess_without_game w group_id st guess api_url api_key model temperature :
  game_states w !! group_id = Some st ->
  truthy (game_active st) = false ->
  _handle_guess http_post lower group_id guess api_url api_key model temperature w
  = (Returned (false, u "无游戏", true), said no_game w).
Proof.
  intros Hst Hact. unfold _handle_guess. py_unfold. rewrite Hst, Hact. reflexivity.
Qed.

(** X5. Help and the puzzle view only read. Help answers with the command
    list in any state of the game. The puzzle view sends the heading
    followed by the stored question string of an active session and is
    turned away otherwise. The world
    they leave is the one with the session dict created plus one message:
    no request is posted and the group's session is what it was (the empty
    dict if there was none). *)
Theorem help_and_puzzle_only_read self cs api_url api_key w :
  context_ok self cs api_url api_key ->
  (action_of self = kw_help ->
   execute http_post lower self w
   = (Returned (true, u "显示帮助", true),
      said command_help (ensured (group_id_for cs) w)))
  /\ (action_of self = kw_puzzle ->
      forall st,
        game_states w !! group_id_for cs = Some st ->
        truthy (game_active st) = true ->
        execute http_post lower self w
        = (Returned (true, u "查看汤面", true),
           said (u "🍲 当前海龟汤题目:
" ++ fmt (current_question st)) w)
        /\ contains (fmt (current_question st))
             (u "🍲 当前海龟汤题目:
" ++ fmt (current_question st)) = true
        /\ forall question,
             current_question st = Some question ->
             execute http_post lower self w
             = (Returned (true, u "查看汤面", true),
                said (u "🍲 当前海龟汤题目:
" ++ question) w))
  /\ (action_of self = kw_puzzle ->
      truthy (game_active (default empty_state (game_states w !! group_id_for cs)))
      = false ->
      execute http_post lower self w
      = (Returned (false, u "无游戏", true),
         said no_game (ensured (group_id_for cs) w)))
  /\ (forall text,
        http_log (said text (ensured (group_id_for cs) w)) = http_log w
        /\ game_states (said text (ensured (group_id_for cs) w)) !! group_id_for cs
           = Some (default empty_state (game_states w !! group_id_for cs))).
Proof.
  intros Hctx. split; [| split; [| split]].
  - intros Hact. exact (execute_help self cs api_url api_key w Hctx Hact).
  - intros Hact st Hst Hactive.
    rewrite (execute_puzzle self cs api_url api_key w Hctx Hact). cbv zeta.
    rewrite Hst. cbn [default from_option id]. rewrite Hactive.
    rewrite (ensured_existing _ _ _ Hst).
    split; [reflexivity |]. split; [apply contains_suffix |].
    intros question Hq. rewrite Hq. reflexivity.
  - intros Hact Hinactive.
    rewrite (execute_puzzle self cs api_url api_key w Hctx Hact). cbv zeta.
    rewrite Hinactive. reflexivity.
  - intros text. split; [| apply ensured_lookup].
    unfold ensured. destruct (game_states w !! group_id_for cs); reflexivity.
Qed.

(** X6. Reveal on an active session sends the answer and stores the
    session as not active and over, with everything else as it was and no
    request posted; the game is then no longer in progress. On a session
    that is not active it is turned away and nothing changes. *)
Theorem reveal_finishes_game self cs api_url api_key w :
  context_ok self cs api_url api_key ->
  action_of self = kw_reveal ->
  (forall st,
     game_states w !! group_id_for cs = Some st ->
     truthy (game_active st) = true ->
     exists reply w',
       execute http_post lower self w = (Returned (true, u "已揭秘", true), w')
       /\ sent w' = sent w ++ [reply]
       /\ contains (default (u "无答案") (current_answer st)) reply = true
       /\ http_log w' = http_log w
       /\ game_states w' !! group_id_for cs
          = Some {| current_question := current_question st;
                    current_answer := current_answer st;
                    hints_used := hints_used st;
                    game_active := Some false;
                    guess_history := guess_history st;
                    game_over := Some true |}
       /\ in_progress (set_game_over true (set_game_active false st)) = false)
  /\ (truthy (game_active (default empty_state (game_states w !! group_id_for cs)))
      = false ->
      execute http_post lower self w
      = (Returned (false, u "无游戏", true),
         said (u "❌ 当前没有正在进行的游戏。请先使用 /hgt 生成题目。")
           (ensured (group_id_for cs) w))).
Proof.
  intros Hctx Hact. split.
  - intros st Hst Hactive.
    rewrite (execute_reveal http_post lower self cs api_url api_key w st
               Hctx Hact Hst Hactive).
    eexists _, _. split; [reflexivity |]. world_simpl.
    split; [reflexivity |]. split; [apply contains_app |].
    split; [reflexivity |]. split; [apply lookup_insert_eq | reflexivity].
  - intros Hinactive.
    exact (execute_reveal_inactive self cs api_url api_key w Hctx Hact Hinactive).
Qed.

(** X7. With no active game, Hint, Clues, the puzzle view and a Guess with
    text are all turned away with the same message: no request is posted
    and the session is left as it was. *)
Theorem in_game_actions_need_a_game self cs api_url api_key w :
  context_ok self cs api_url api_key ->
  truthy (game_active (default empty_state (game_states w !! group_id_for cs)))
  = false ->
  action_of self = kw_hint \/ action_of self = kw_clues
  \/ action_of self = kw_puzzle
  \/ (action_of self = kw_guess /\ rest_of self <> []) ->
  execute http_post lower self w
  = (Returned (false, u "无游戏", true), said no_game (ensured (group_id_for cs) w)).
Proof.
  intros Hctx Hinactive Haction.
  pose proof (ensured_lookup (group_id_for cs) w) as Hst.
  destruct Haction as [Hact | [Hact | [Hact | [Hact Hrest]]]].
  - rewrite (execute_hint self cs api_url api_key w Hctx Hact).
    exact (hint_without_game _ _ _ _ _ _ _ Hst Hinactive).
  - rewrite (execute_clues self cs api_url api_key w Hctx Hact).
    exact (clues_without_game _ _ _ _ _ _ _ Hst Hinactive).
  - rewrite (execute_puzzle self cs api_url api_key w Hctx Hact). cbv zeta.
    rewrite Hinactive. reflexivity.
  - rewrite (execute_guess self cs api_url api_key w Hctx Hact Hrest).
    exact (guess_without_game _ _ _ _ _ _ _ _ Hst Hinactive).
Qed.

End Coverage.

(** ** Substrings *)

Lemma startswith_spec sub s : startswith sub s = true <-> exists q, s = sub ++ q.
Proof.
  split.
  - revert s. induction sub as [| a sub IH]; intros s H; [exists s; reflexivity |].
    destruct s as [| b s]; [discriminate |]. cbn [startswith] in H.
    apply andb_prop in H as [Hab H]. apply N.eqb_eq in Hab as ->.
    apply IH in H as [q ->]. exists q. reflexivity.
  - intros [q ->]. apply startswith_app.
Qed.

Lemma contains_spec sub s : contains sub s = true <-> exists p q, s = p ++ sub ++ q.
Proof.
  split.
  - induction s as [| c s IH]; cbn [contains]; intros H.
    + rewrite orb_false_r in H. apply startswith_spec in H as [q ->].
      exists [], q. reflexivity.
    + apply orb_prop in H as [H | H].
      * apply startswith_spec in H as [q ->]. exists [], q. reflexivity.
      * apply IH in H as (p & q & ->). exists (c :: p), q. reflexivity.
  - intros (p & q & ->). apply contains_app.
Qed.

Lemma contains_inside sub p s q :
  contains sub s = true -> contains sub (p ++ s ++ q) = true.
Proof.
  intros H. apply contains_spec in H as (p' & q' & ->). apply contains_spec.
  exists (p ++ p'), (q' ++ q). rewrite <- !app_assoc. reflexivity.
Qed.

Lemma contains_join sep x l : x ∈ l -> contains x (join sep l) = true.
Proof.
  induction l as [| y l IH]; intros Hin; [apply elem_of_nil in Hin; destruct Hin |].
  apply elem_of_cons in Hin as [-> | Hin].
  - destruct l as [| z l]; cbn [join].
    + apply contains_here, startswith_spec. exists []. symmetry. apply app_nil_r.
    + apply (contains_app [] y).
  - destruct l as [| z l]; [apply elem_of_nil in Hin; destruct Hin |].
    change (join sep (y :: z :: l)) with (y ++ sep ++ join sep (z :: l)).
    rewrite <- (app_nil_r (join sep (z :: l))), app_assoc.
    apply contains_inside, IH, Hin.
Qed.

Lemma contents_questions history :
  Forall is_question_entry history ->
  contents history = Returned (map entry_text history).
Proof.
  induction 1 as [| item history Hitem _ IH]; [reflexivity |].
  destruct item as [t c | s]; [| destruct Hitem].
  cbn [contents map entry_text]. rewrite IH. reflexivity.
Qed.

(** ** The handlers one by one *)

Section HandlerCoverage.

Variable http_post : nat -> request -> http_outcome.
Variable lower : str -> str.

Lemma read_content_stripped data s : read_content data = Returned s -> strip s = s.
Proof.
  unfold read_content.
  destruct (json_get (u "choices") _ data) as [choices |]; [| discriminate].
  destruct (json_first choices) as [first |]; [| discriminate].
  destruct (json_get (u "message") _ first) as [msg |]; [| discriminate].
  destruct (json_get (u "content") _ msg) as [text |]; [| discriminate].
  destruct text; cbn [json_strip]; try discriminate.
  intros [= <-]. apply strip_idem.
Qed.

Lemma llm_text_stripped o : strip (llm_text o) = llm_text o.
Proof.
  destruct o as [e | status parsed]; cbn [llm_text]; [reflexivity |].
  destruct (bool_decide (status = 200%Z)); [| reflexivity].
  destruct parsed as [data |]; [| reflexivity].
  destruct (read_content data) as [s |] eqn:E; [| reflexivity].
  exact (read_content_stripped data s E).
Qed.

(** X8. What the collaborator call returns has no white space at either
    end: stripping it again, as every caller does, changes nothing. *)
Theorem collaborator_output_is_stripped prompt api_url api_key model temperature w :
  exists text w',
    _call_llm_api http_post prompt api_url api_key model temperature w
    = (Returned text, w')
    /\ strip text = text
    /\ match text with
       | [] => True
       | c :: _ => isspace c = false
       end.
Proof.
  rewrite _call_llm_api_eq. eexists _, _. split; [reflexivity |].
  split; [apply llm_text_stripped |].
  rewrite <- llm_text_stripped. unfold strip.
  pose proof (lstrip_head (llm_text (http_post (length (http_log w))
                (llm_request prompt api_url api_key model temperature)))) as H.
  destruct (lstrip _) as [| c t]; [exact I |].
  rewrite rstrip_cons_nonspace by exact H. exact H.
Qed.

Lemma question_relayed w group_id st question api_url api_key model temperature :
  game_states w !! group_id = Some st ->
  truthy (game_active st) = true ->
  let req := llm_request (question_prompt st question) api_url api_key model
               temperature in
  let out := llm_text (http_post (length (http_log w)) req) in
  _handle_question http_post group_id question api_url api_key model temperature w
  = (Returned (true, u "问题回答完成", true),
     said (u "❓ 你问: " ++ question ++ u "
💡 回答: " ++ str_or out no_answer)
       (logged req
          (stored group_id (append_history (ItemDict (u "question") question) st) w))).
Proof.
  intros Hst Hact. unfold _handle_question. py_unfold. rewrite Hst, Hact. cbn [negb].
  rewrite _call_llm_api_eq. world_simpl. cbv zeta.
  rewrite llm_text_stripped. unfold question_prompt.
  cbn [current_question current_answer append_history]. reflexivity.
Qed.

(** X9. A question on an active session is appended to the history as a
    question entry, with nothing else in the session changed. One request
    is posted, whose prompt is the template filled with the stored
    question and answer strings and the question asked. The
    reply repeats the question and gives the collaborator's output, or the
    fallback text when that output is empty. *)
Theorem question_recorded_and_relayed
    w group_id st question api_url api_key model temperature :
  game_states w !! group_id = Some st ->
  truthy (game_active st) = true ->
  exists out w',
    _handle_question http_post group_id question api_url api_key model temperature w
    = (Returned (true, u "问题回答完成", true), w')
    /\ http_log w'
       = http_log w ++ [llm_request (question_prompt st question) api_url api_key
                          model temperature]
    /\ out = llm_text (http_post (length (http_log w))
                         (llm_request (question_prompt st question) api_url api_key
                            model temperature))
    /\ contains question (question_prompt st question) = true
    /\ contains (fmt (current_answer st)) (question_prompt st question) = true
    /\ (forall puzzle answer,
          current_question st = Some puzzle ->
          current_answer st = Some answer ->
          http_log w'
          = http_log w
            ++ [llm_request (u "
你是一个海龟汤游戏专家。
当前题目: " ++ puzzle ++ u "
当前答案: " ++ answer ++ u "
用户提问: " ++ question ++ u "
请用简短的回答回应玩家，不要透露答案。
") api_url api_key model temperature]
          /\ contains answer (question_prompt st question) = true)
    /\ game_states w' !! group_id
       = Some {| current_question := current_question st;
                 current_answer := current_answer st;
                 hints_used := hints_used st;
                 game_active := game_active st;
                 guess_history :=
                   Some (default [] (guess_history st)
                         ++ [ItemDict (u "question") question]);
                 game_over := game_over st |}
    /\ sent w' = sent w ++ [u "❓ 你问: " ++ question ++ u "
💡 回答: " ++ (if nonempty out then out else no_answer)].
Proof.
  intros Hst Hact.
  rewrite (question_relayed w group_id st question api_url api_key model temperature
             Hst Hact).
  cbv zeta. eexists _, _. split; [reflexivity |]. world_simpl.
  split; [reflexivity |]. split; [reflexivity |].
  split; [unfold question_prompt; rewrite !app_assoc;
          rewrite <- (app_assoc _ question); apply contains_app |].
  assert (Ha : contains (fmt (current_answer st)) (question_prompt st question)
               = true).
  { unfold question_prompt. rewrite (app_assoc (u _)), (app_assoc _ (u _)).
    apply contains_app. }
  split; [exact Ha |].
  split; [intros puzzle answer Hq Hanswer; split;
          [unfold question_prompt; rewrite Hq, Hanswer; reflexivity
          | rewrite Hanswer in Ha; exact Ha] |].
  split; [apply lookup_insert_eq | reflexivity].
Qed.

Lemma hint_served w group_id st api_url api_key model temperature :
  game_states w !! group_id = Some st ->
  truthy (game_active st) = true ->
  (default 0 (hints_used st) < 3)%Z ->
  let req := llm_request (hint_prompt st) api_url api_key model temperature in
  let out := llm_text (http_post (length (http_log w)) req) in
  _handle_hint http_post group_id api_url api_key model temperature w
  = (Returned (true, u "提示完成", true),
     said (u "💡 提示 (" ++ str_of_int (default 0 (hints_used st) + 1)%Z
           ++ u "/3): " ++ out)
       (stored group_id (set_hints_used (default 0 (hints_used st) + 1)%Z st)
          (logged req w))).
Proof.
  intros Hst Hact Hlt. unfold _handle_hint. py_unfold. rewrite Hst, Hact. cbn [negb].
  destruct (Z.leb_spec 3 (default 0%Z (hints_used st))) as [Hge | _]; [lia |].
  rewrite _call_llm_api_eq. world_simpl. cbv zeta.
  rewrite llm_text_stripped. unfold hint_prompt. reflexivity.
Qed.

(** X10. A hint is used up whatever the collaborator does. One request is
    posted, whose prompt is the template filled with the stored question
    and answer strings. When that request raises, the count still goes up
    by one and the message sent is the bare counter with no hint text after
    it. *)
Theorem hint_used_up_on_failure w group_id st api_url api_key model temperature e :
  game_states w !! group_id = Some st ->
  truthy (game_active st) = true ->
  (default 0 (hints_used st) < 3)%Z ->
  http_post (length (http_log w))
    (llm_request (hint_prompt st) api_url api_key model temperature) = HttpRaise e ->
  exists w',
    _handle_hint http_post group_id api_url api_key model temperature w
    = (Returned (true, u "提示完成", true), w')
    /\ (exists st', game_states w' !! group_id = Some st'
                    /\ hints_used st' = Some (default 0 (hints_used st) + 1)%Z)
    /\ sent w' = sent w ++ [u "💡 提示 (" ++ str_of_int (default 0 (hints_used st) + 1)%Z
                            ++ u "/3): "]
    /\ contains (fmt (current_answer st)) (hint_prompt st) = true
    /\ http_log w'
       = http_log w ++ [llm_request (hint_prompt st) api_url api_key model
                          temperature]
    /\ (forall puzzle answer,
          current_question st = Some puzzle ->
          current_answer st = Some answer ->
          http_log w'
          = http_log w
            ++ [llm_request (u "
你是一个海龟汤游戏专家。
题目: " ++ puzzle ++ u "
答案: " ++ answer ++ u "
请提供一个不直接透露答案的提示。
") api_url api_key model temperature]).
Proof.
  intros Hst Hact Hlt Hraise.
  rewrite (hint_served w group_id st api_url api_key model temperature Hst Hact Hlt).
  cbv zeta. rewrite Hraise. cbn [llm_text]. rewrite !app_nil_r.
  eexists. split; [reflexivity |]. world_simpl.
  split; [eexists; split; [apply lookup_insert_eq | reflexivity] |].
  split; [reflexivity |].
  split; [unfold hint_prompt; rewrite (app_assoc (u _)), (app_assoc _ (u _));
          apply contains_app |].
  split; [reflexivity |].
  intros puzzle answer Hq Hanswer.
  unfold hint_prompt. rewrite Hq, Hanswer. reflexivity.
Qed.

Lemma guess_world w group_id st guess api_url api_key model temperature :
  game_states w !! group_id = Some st ->
  in_progress st = true ->
  let req := llm_request (guess_prompt st guess) api_url api_key model temperature in
  let out := llm_text (http_post (length (http_log w)) req) in
  let st1 := append_history (ItemStr guess) st in
  _handle_guess http_post lower group_id guess api_url api_key model temperature w
  = (Returned (true, u "猜谜完成", true),
     if decide (lower out = yes) then
       said (u "🎉 猜对了！答案: " ++ fmt (current_answer st))
         (stored group_id (set_game_over true st1)
            (stored group_id st1 (logged req w)))
     else if decide (lower out = no) then
       said (u "❌ 猜错了！提示次数: "
             ++ str_of_int (default 0%Z (hints_used st)) ++ u "/3")
         (stored group_id st1 (logged req w))
     else
       said unrelated (stored group_id st1 (logged req w))).
Proof.
  intros Hst Hprog.
  destruct (in_progress_inv _ Hprog) as [Hact Hover].
  unfold _handle_guess. py_unfold. rewrite Hst, Hact, Hover. cbn [negb].
  rewrite _call_llm_api_eq. py_unfold. cbv zeta. rewrite llm_text_stripped.
  unfold guess_prompt.
  destruct (decide (lower _ = yes)); [reflexivity |].
  destruct (decide (lower _ = no)); reflexivity.
Qed.

(** X11. A guess on a game in progress is appended to the history as a
    bare string whatever the verdict, after one request whose prompt is the
    template filled with the stored question and answer strings and the
    guess; question, answer, hint count and active are as before. A guess on a session that is not in progress is
    turned away and recorded nowhere. *)
Theorem guess_recorded w group_id st guess api_url api_key model temperature :
  game_states w !! group_id = Some st ->
  (in_progress st = true ->
   exists st' w',
     _handle_guess http_post lower group_id guess api_url api_key model temperature w
     = (Returned (true, u "猜谜完成", true), w')
     /\ http_log w'
        = http_log w ++ [llm_request (guess_prompt st guess) api_url api_key
                           model temperature]
     /\ contains guess (guess_prompt st guess) = true
     /\ contains (fmt (current_answer st)) (guess_prompt st guess) = true
     /\ (forall puzzle answer,
           current_question st = Some puzzle ->
           current_answer st = Some answer ->
           http_log w'
           = http_log w
             ++ [llm_request (u "
你是海龟汤游戏专家。
题目: " ++ puzzle ++ u "
答案: " ++ answer ++ u "
用户猜测: " ++ guess ++ u "
请仅回答 是/不是/无关。
") api_url api_key model temperature]
           /\ contains answer (guess_prompt st guess) = true)
     /\ game_states w' !! group_id = Some st'
     /\ guess_history st' = Some (default [] (guess_history st) ++ [ItemStr guess])
     /\ current_question st' = current_question st
     /\ current_answer st' = current_answer st
     /\ hints_used st' = hints_used st
     /\ game_active st' = game_active st)
  /\ (in_progress st = false ->
      exists reason text,
        _handle_guess http_post lower group_id guess api_url api_key model temperature w
        = (Returned (false, reason, true), said text w)).
Proof.
  intros Hst. split.
  - intros Hprog.
    rewrite (guess_world w group_id st guess api_url api_key model temperature
               Hst Hprog).
    cbv zeta.
    assert (Hg : contains guess (guess_prompt st guess) = true).
    { unfold guess_prompt. rewrite !app_assoc.
      rewrite <- (app_assoc _ guess). apply contains_app. }
    assert (Ha : contains (fmt (current_answer st)) (guess_prompt st guess) = true).
    { unfold guess_prompt. rewrite (app_assoc (u _)), (app_assoc _ (u _)).
      apply contains_app. }
    destruct (decide (lower _ = yes)); [| destruct (decide (lower _ = no))];
      (eexists _, _; split; [reflexivity |]; world_simpl;
       split; [reflexivity |]; split; [exact Hg |]; split; [exact Ha |];
       split; [intros puzzle answer Hq Hanswer; split;
               [unfold guess_prompt; rewrite Hq, Hanswer; reflexivity
               | rewrite Hanswer in Ha; exact Ha] |];
       split; [apply lookup_insert_eq |]; repeat split).
  - intros Hnot. unfold in_progress in Hnot.
    destruct (truthy (game_active st)) eqn:Hact.
    + destruct (truthy (game_over st)) eqn:Hover; [| discriminate Hnot].
      eexists _, _.
      exact (guess_after_win_rejected http_post lower w group_id st guess
               api_url api_key model temperature Hst Hact Hover).
    + eexists _, _.
      exact (guess_without_game http_post lower w group_id st guess
               api_url api_key model temperature Hst Hact).
Qed.

(** X12. The clue summary never changes the store and posts at most one
    request, whether it succeeds, is turned away or raises. *)
Theorem clues_change_no_session group_id api_url api_key model temperature w :
  game_states
    (_handle_clues http_post group_id api_url api_key model temperature w).2
  = game_states w
  /\ exists reqs,
       http_log
         (_handle_clues http_post group_id api_url api_key model temperature w).2
       = http_log w ++ reqs
       /\ (length reqs <= 1)%nat.
Proof.
  unfold _handle_clues. py_unfold.
  destruct (game_states w !! group_id) as [st |];
    [| split; [reflexivity | exists []; split; [symmetry; apply app_nil_r | cbn; lia]]].
  destruct (truthy (game_active st)); cbn [negb];
    [| split; [reflexivity | exists []; split; [symmetry; apply app_nil_r | cbn; lia]]].
  destruct (contents _);
    [| split; [reflexivity | exists []; split; [symmetry; apply app_nil_r | cbn; lia]]].
  rewrite _call_llm_api_eq. world_simpl.
  split; [reflexivity | eexists [_]; split; [reflexivity | cbn; lia]].
Qed.

(** X13. Once a guess has been judged, the clue summary of that game
    raises [TypeError] before it sends or posts anything: the guess sits
    in the history as a bare string, which has no content field. *)
Theorem clues_raise_after_a_guess
    w group_id st guess api_url api_key model temperature :
  game_states w !! group_id = Some st ->
  in_progress st = true ->
  _handle_clues http_post group_id api_url api_key model temperature
    (_handle_guess http_post lower group_id guess api_url api_key model
       temperature w).2
  = (Raised TypeError,
     (_handle_guess http_post lower group_id guess api_url api_key model
        temperature w).2).
Proof.
  intros Hst Hprog.
  destruct (in_progress_inv _ Hprog) as [Hact _].
  rewrite (guess_world w group_id st guess api_url api_key model temperature
             Hst Hprog).
  cbv zeta.
  destruct (decide (lower _ = yes)); [| destruct (decide (lower _ = no))];
    world_simpl;
    (eapply (clues_after_guess_raise http_post) with (rest := []);
     [world_simpl; apply lookup_insert_eq | exact Hact | reflexivity]).
Qed.

Lemma clues_summarised w group_id st api_url api_key model temperature :
  game_states w !! group_id = Some st ->
  truthy (game_active st) = true ->
  Forall is_question_entry (default [] (guess_history st)) ->
  let listing := join (u "
") (map entry_text (default [] (guess_history st))) in
  let req := llm_request (clues_prompt st listing) api_url api_key model temperature in
  let out := llm_text (http_post (length (http_log w)) req) in
  _handle_clues http_post group_id api_url api_key model temperature w
  = (Returned (true, u "线索整理完成", true),
     said (u "📝 线索整理:
" ++ out) (logged req w)).
Proof.
  intros Hst Hact Hq. unfold _handle_clues. py_unfold.
  rewrite Hst, Hact, (contents_questions _ Hq). cbn [negb].
  rewrite _call_llm_api_eq. world_simpl. cbv zeta.
  rewrite llm_text_stripped. unfold clues_prompt. reflexivity.
Qed.

(** X14. When the history holds questions only, the clue summary posts one
    request whose prompt lists every recorded question, joined by newlines
    in the order asked, and sends the collaborator's output. *)
Theorem clues_list_the_questions w group_id st api_url api_key model temperature :
  game_states w !! group_id = Some st ->
  truthy (game_active st) = true ->
  Forall is_question_entry (default [] (guess_history st)) ->
  exists prompt out w',
    _handle_clues http_post group_id api_url api_key model temperature w
    = (Returned (true, u "线索整理完成", true), w')
    /\ prompt = clues_prompt st
                  (join (u "
") (map entry_text (default [] (guess_history st))))
    /\ http_log w' = http_log w ++ [llm_request prompt api_url api_key model temperature]
    /\ (forall item, item ∈ default [] (guess_history st) ->
                     contains (entry_text item) prompt = true)
    /\ out = llm_text (http_post (length (http_log w))
                         (llm_request prompt api_url api_key model temperature))
    /\ sent w' = sent w ++ [u "📝 线索整理:
" ++ out].
Proof.
  intros Hst Hact Hq.
  rewrite (clues_summarised w group_id st api_url api_key model temperature
             Hst Hact Hq).
  cbv zeta. eexists _, _, _. split; [reflexivity |]. split; [reflexivity |].
  world_simpl. split; [reflexivity |].
  split; [| split; reflexivity].
  intros item Hin. unfold clues_prompt.
  rewrite !app_assoc. rewrite <- (app_assoc _ (join _ _)).
  apply contains_inside, contains_join, list_elem_of_fmap_2, Hin.
Qed.

Lemma in_progress_default o :
  in_progress (default empty_state o) = true ->
  exists st, o = Some st /\ in_progress st = true.
Proof. destruct o as [st |]; [eauto | discriminate]. Qed.

(** X15. A new game is started exactly when the group's session is not in
    progress. The start posts two requests, the second one's prompt being
    built around the stripped output of the first, and replaces the
    session, whatever it held, by a fresh one with no hints used and an
    empty history. *)
Theorem start_builds_the_puzzle
    w group_id api_url api_key model temperature stream_id :
  ((_start_new_game http_post group_id api_url api_key model temperature stream_id w).1
   = Returned (true, u "新题目生成完成", true)
   <-> in_progress (default empty_state (game_states w !! group_id)) = false)
  /\ (in_progress (default empty_state (game_states w !! group_id)) = false ->
      exists question answer w',
        _start_new_game http_post group_id api_url api_key model temperature stream_id w
        = (Returned (true, u "新题目生成完成", true), w')
        /\ http_log w'
           = http_log w
             ++ [llm_request prompt_question api_url api_key model temperature;
                 llm_request (prompt_answer question) api_url api_key model temperature]
        /\ question
           = llm_text (http_post (length (http_log w))
                         (llm_request prompt_question api_url api_key model temperature))
        /\ contains question (prompt_answer question) = true
        /\ answer
           = llm_text (http_post (S (length (http_log w)))
                         (llm_request (prompt_answer question) api_url api_key model
                            temperature))
        /\ game_states w' !! group_id
           = Some {| current_question := Some question; current_answer := Some answer;
                     hints_used := Some 0%Z; game_active := Some true;
                     guess_history := Some []; game_over := Some false |}).
Proof.
  assert (Haccept :
    in_progress (default empty_state (game_states w !! group_id)) = false ->
    exists question answer w',
      _start_new_game http_post group_id api_url api_key model temperature stream_id w
      = (Returned (true, u "新题目生成完成", true), w')
      /\ http_log w'
         = http_log w
           ++ [llm_request prompt_question api_url api_key model temperature;
               llm_request (prompt_answer question) api_url api_key model temperature]
      /\ question
         = llm_text (http_post (length (http_log w))
                       (llm_request prompt_question api_url api_key model temperature))
      /\ contains question (prompt_answer question) = true
      /\ answer
         = llm_text (http_post (S (length (http_log w)))
                       (llm_request (prompt_answer question) api_url api_key model
                          temperature))
      /\ game_states w' !! group_id
         = Some {| current_question := Some question; current_answer := Some answer;
                   hints_used := Some 0%Z; game_active := Some true;
                   guess_history := Some []; game_over := Some false |}).
  { intros Hnot.
    destruct (start_accepted http_post w group_id api_url api_key model temperature
                stream_id Hnot) as [text Heq].
    cbv zeta in Heq. rewrite !llm_text_stripped in Heq.
    rewrite length_app, Nat.add_1_r in Heq.
    eexists _, _, _. split; [exact Heq |]. world_simpl.
    split; [rewrite <- app_assoc; reflexivity |]. split; [reflexivity |].
    split; [unfold prompt_answer; apply contains_app |].
    split; [reflexivity | apply lookup_insert_eq]. }
  split; [| exact Haccept].
  split.
  - intros Hok.
    destruct (in_progress (default empty_state (game_states w !! group_id))) eqn:E;
      [| reflexivity].
    apply in_progress_default in E as (st & Hst & Hprog).
    rewrite (start_rejected http_post w group_id st api_url api_key model temperature
               stream_id Hst Hprog) in Hok.
    discriminate Hok.
  - intros Hnot. destruct (Haccept Hnot) as (q & a & w' & -> & _). reflexivity.
Qed.

End HandlerCoverage.

(** ** Sequences of commands *)

Section Sequences.

Variable http_post : nat -> request -> http_outcome.
Variable lower : str -> str.

(** X16. A question put to a session that is not active is not answered:
    the handler starts a new game instead, so the outcome, the requests and
    the stored session are the same whatever was asked, and the question is
    recorded nowhere. *)
Theorem question_without_game_starts_one
    w group_id st question api_url api_key model temperature :
  game_states w !! group_id = Some st ->
  truthy (game_active st) = false ->
  _handle_question http_post group_id question api_url api_key model temperature w
  = _start_new_game http_post group_id api_url api_key model temperature None w
  /\ exists q a w',
       _handle_question http_post group_id question api_url api_key model
         temperature w
       = (Returned (true, u "新题目生成完成", true), w')
       /\ game_states w' !! group_id = Some (new_game q a)
       /\ guess_history (new_game q a) = Some [].
Proof.
  intros Hst Hact.
  assert (Heq :
    _handle_question http_post group_id question api_url api_key model temperature w
    = _start_new_game http_post group_id api_url api_key model temperature None w).
  { unfold _handle_question. py_unfold. rewrite Hst, Hact. reflexivity. }
  split; [exact Heq |]. rewrite Heq.
  destruct (start_accepted http_post w group_id api_url api_key model temperature
              None) as [text Hstart].
  { rewrite Hst. change (in_progress st = false). unfold in_progress.
    rewrite Hact. reflexivity. }
  cbv zeta in Hstart. rewrite Hstart.
  eexists _, _, _. split; [reflexivity |]. world_simpl.
  split; [apply lookup_insert_eq | reflexivity].
Qed.

Lemma won_world w group_id st guess api_url api_key model temperature :
  game_states w !! group_id = Some st ->
  in_progress st = true ->
  lower (llm_text (http_post (length (http_log w))
                     (llm_request (guess_prompt st guess) api_url api_key model
                        temperature))) = yes ->
  game_states
    (_handle_guess http_post lower group_id guess api_url api_key model
       temperature w).2 !! group_id
  = Some (set_game_over true (append_history (ItemStr guess) st)).
Proof.
  intros Hst Hprog Hyes.
  rewrite (guess_world http_post lower w group_id st guess api_url api_key model
             temperature Hst Hprog).
  cbv zeta. rewrite Hyes.
  destruct (decide (yes = yes)) as [_ | Hne]; [| destruct Hne; reflexivity].
  world_simpl. apply lookup_insert_eq.
Qed.

(** X17. After a guess judged correct the session is over but still
    active. A further guess is then turned away and changes nothing, a
    question is still answered, and a new game can be started. *)
Theorem after_a_correct_guess
    w group_id st guess api_url api_key model temperature :
  game_states w !! group_id = Some st ->
  in_progress st = true ->
  lower (llm_text (http_post (length (http_log w))
                     (llm_request (guess_prompt st guess) api_url api_key model
                        temperature))) = yes ->
  forall w',
    w' = (_handle_guess http_post lower group_id guess api_url api_key model
            temperature w).2 ->
    (exists st', game_states w' !! group_id = Some st'
                 /\ game_active st' = Some true /\ game_over st' = Some true)
    /\ (forall guess',
          _handle_guess http_post lower group_id guess' api_url api_key model
            temperature w'
          = (Returned (false, u "游戏已结束", true), said game_ended w'))
    /\ (forall question,
          (_handle_question http_post group_id question api_url api_key model
             temperature w').1
          = Returned (true, u "问题回答完成", true))
    /\ (forall stream_id,
          (_start_new_game http_post group_id api_url api_key model temperature
             stream_id w').1
          = Returned (true, u "新题目生成完成", true)).
Proof.
  intros Hst Hprog Hyes w' ->.
  pose proof (won_world w group_id st guess api_url api_key model temperature
                Hst Hprog Hyes) as Hwon.
  destruct (in_progress_inv _ Hprog) as [Hact Hover].
  assert (Hact' : game_active st = Some true).
  { destruct (game_active st) as [[|] |]; [reflexivity | discriminate | discriminate]. }
  set (w' := (_handle_guess _ _ _ _ _ _ _ _ _).2) in *. clearbody w'.
  split; [| split; [| split]].
  - eexists. split; [exact Hwon |]. split; [exact Hact' | reflexivity].
  - intros guess'.
    apply (guess_after_win_rejected http_post lower w' group_id _ guess' api_url
             api_key model temperature Hwon); cbn; [exact Hact | reflexivity].
  - intros question.
    rewrite (question_relayed http_post w' group_id _ question api_url api_key
               model temperature Hwon Hact).
    reflexivity.
  - intros stream_id.
    destruct (start_accepted http_post w' group_id api_url api_key model temperature
                stream_id) as [text Hstart].
    + rewrite Hwon.
      change (in_progress (set_game_over true (append_history (ItemStr guess) st))
              = false).
      unfold in_progress. cbn [game_over set_game_over truthy default from_option id].
      apply andb_false_r.
    + cbv zeta in Hstart. rewrite Hstart. reflexivity.
Qed.

Lemma step_keeps_shape o st :
  session_step http_post o st ->
  (forall st0, o = Some st0 -> session_shape st0) -> session_shape st.
Proof.
  intros Hstep Hprev.
  inversion Hstep as
    [ | o' n1 req1 n2 req2 Hnot | st0 question Hact | st0 Hact Hcap
      | st0 guess Hprog | st0 Hprog | st0 Hact | o' ]; subst.
  - constructor.
  - apply shape_game; [lia | left; reflexivity].
  - destruct (Hprev _ eq_refl) as [| | q a n h active over Hn Hao];
      [discriminate Hact | discriminate Hact |].
    cbn in Hact. subst active. apply shape_game; [exact Hn | left; reflexivity].
  - destruct (Hprev _ eq_refl) as [| | q a n h active over Hn Hao];
      [discriminate Hact | discriminate Hact |].
    cbn in Hact, Hcap |- *. subst active.
    apply shape_game; [lia | left; reflexivity].
  - destruct (Hprev _ eq_refl) as [| | q a n h active over Hn Hao];
      [discriminate Hprog | discriminate Hprog |].
    apply shape_game; assumption.
  - destruct (Hprev _ eq_refl) as [| | q a n h active over Hn Hao];
      [discriminate Hprog | discriminate Hprog |].
    apply shape_game; [exact Hn | right; reflexivity].
  - destruct (Hprev _ eq_refl) as [| | q a n h active over Hn Hao];
      [discriminate Hact | discriminate Hact |].
    apply shape_game; [exact Hn | right; reflexivity].
  - constructor.
Qed.

(** X18. Whatever commands have run, in any order and for any groups, each
    stored session has one of three shapes: the empty dict, the reset dict
    written by Exit, or a full dict with a question, an answer, a history,
    between 0 and 3 hints used, and flags that say active or over (a dict
    that is neither active nor over holds no puzzle). *)
Theorem reachable_session_shapes w :
  reachable http_post lower w -> store_inv session_shape w.
Proof. apply reachable_inv. exact step_keeps_shape. Qed.

End Sequences.

(** ** From the message text to the handlers *)

Lemma keyword_is_stripped kw : kw ∈ keywords -> strip kw = kw.
Proof.
  unfold keywords. rewrite !elem_of_cons, elem_of_nil.
  intros H. repeat (destruct H as [-> | H]; [vm_compute; reflexivity |]).
  destruct H.
Qed.

Lemma char_matches_case_sensitive f c x :
  ignorecase f = false -> char_matches f c x = true -> x = c.
Proof.
  unfold char_matches. intros ->. intros H. symmetry. apply N.eqb_eq, H.
Qed.

Lemma literal_case_sensitive f l p :
  ignorecase f = false ->
  Forall2 (fun c x => char_matches f c x = true) l p -> p = l.
Proof.
  intros Hf H. induction H as [| c x l p Hc _ IH]; [reflexivity |].
  rewrite IH, (char_matches_case_sensitive f c x Hf Hc). reflexivity.
Qed.

(** X19. Every message the pattern accepts is the prefix (in the pattern's
    letter case, up to case under IGNORECASE), white space, one of the
    eight keywords, and then either nothing or white space and an argument,
    with at most one final newline. The action group is the keyword; the
    rest group is the argument, absent when there is none. *)
Theorem accepted_message_shape f text caps :
  re_match f command_pattern text = Some caps ->
  exists p ws kw tail,
    text = p ++ ws ++ kw ++ tail
    /\ Forall2 (fun c x => char_matches f c x = true) (u "/hgt") p
    /\ (ignorecase f = false -> p = u "/hgt")
    /\ ws <> [] /\ Forall (fun x => isspace x = true) ws
    /\ kw ∈ keywords
    /\ g_action (groupdict caps) = Some kw
    /\ argument_shape f tail (g_rest (groupdict caps)).
Proof.
  unfold re_match. intros H.
  apply rmatch_sound in H as (s' & caps' & H & [= ->]).
  apply matches_command_full in H
    as (_ & p & ws & a & tail & -> & Hp & Hne & Hws & Halt & Hact & Hrest);
    [| apply literal_group_free | apply one_of_group_free].
  apply matches_one_of in Halt as (kw & Hin & Hkw).
  apply (matches_exact_literal _ _ _ _ _ _ _ (keywords_are_ideographs _ Hin)) in Hkw.
  apply app_inv_tail in Hkw as ->.
  apply matches_literal in Hp as (p' & Hp' & Hchars).
  apply app_inv_tail in Hp' as <-.
  exists p, ws, kw, tail. split; [reflexivity |]. split; [exact Hchars |].
  split; [intros Hf; apply (literal_case_sensitive f _ _ Hf Hchars) |].
  repeat (split; [assumption |]). assumption.
Qed.

(** X20. Conversely, the prefix, white space and a keyword are accepted,
    with the keyword as action and no rest; followed by white space and a
    text that starts with a visible character and has no line break, they
    are accepted with that text as rest. *)
Theorem well_formed_messages_are_accepted f ws kw :
  ws <> [] ->
  Forall (fun x => isspace x = true) ws ->
  kw ∈ keywords ->
  groupdict <$> re_match f command_pattern (u "/hgt" ++ ws ++ kw)
  = Some {| g_action := Some kw; g_rest := None |}
  /\ forall ws' x v,
       ws' <> [] ->
       Forall (fun x => isspace x = true) ws' ->
       isspace x = false ->
       Forall (fun x => negb (x =? 10) = true) (x :: v) ->
       groupdict <$> re_match f command_pattern (u "/hgt" ++ ws ++ kw ++ ws' ++ x :: v)
       = Some {| g_action := Some kw; g_rest := Some (x :: v) |}.
Proof.
  intros Hne Hws Hin. split.
  - rewrite (pattern_accepts_keyword f ws kw Hne Hws Hin). reflexivity.
  - intros ws' x v Hne' Hws' Hx Hv.
    rewrite (pattern_accepts_argument f ws kw ws' x v Hne Hws Hin Hne' Hws' Hx).
    + reflexivity.
    + eapply Forall_impl; [exact Hv |]. cbn beta. intros c ->. apply orb_true_r.
Qed.

Section Messages.

Variable http_post : nat -> request -> http_outcome.
Variable lower : str -> str.

Lemma on_message_accepted f self text caps w :
  re_match f command_pattern text = Some caps ->
  on_message http_post lower f self text w
  = (r ← execute http_post lower
           {| matched_groups := Some (groupdict caps);
              chat_stream := chat_stream self;
              message_chat_stream := message_chat_stream self;
              cfg := cfg self |};
     mret (Some r)) w.
Proof. intros H. unfold on_message. rewrite H. reflexivity. Qed.

Lemma execute_ignores_rest action rest rest' cs mcs c w :
  strip (default [] action)
    ∈ [kw_hint; kw_clues; kw_puzzle; kw_reveal; kw_exit; kw_help] ->
  execute http_post lower
    {| matched_groups := Some {| g_action := action; g_rest := rest |};
       chat_stream := cs; message_chat_stream := mcs; cfg := c |} w
  = execute http_post lower
      {| matched_groups := Some {| g_action := action; g_rest := rest' |};
         chat_stream := cs; message_chat_stream := mcs; cfg := c |} w.
Proof.
  rewrite !elem_of_cons, elem_of_nil. intros H.
  unfold execute. cbv zeta.
  cbn [matched_groups chat_stream message_chat_stream cfg g_action g_rest
       default from_option id].
  repeat (destruct H as [-> | H]; [decide_keywords; reflexivity |]).
  destruct H.
Qed.

(** X21. Text that follows Hint, Clues, the puzzle view, Reveal, Exit or
    Help is ignored: the message does what the keyword alone does. *)
Theorem text_after_other_keywords_is_ignored f self ws kw ws' x v w :
  ws <> [] ->
  Forall (fun x => isspace x = true) ws ->
  kw ∈ [kw_hint; kw_clues; kw_puzzle; kw_reveal; kw_exit; kw_help] ->
  ws' <> [] ->
  Forall (fun x => isspace x = true) ws' ->
  isspace x = false ->
  Forall (fun x => negb (x =? 10) = true) (x :: v) ->
  on_message http_post lower f self (u "/hgt" ++ ws ++ kw ++ ws' ++ x :: v) w
  = on_message http_post lower f self (u "/hgt" ++ ws ++ kw) w.
Proof.
  intros Hne Hws Hin Hne' Hws' Hx Hv.
  assert (Hkw : kw ∈ keywords).
  { revert Hin. unfold keywords. rewrite !elem_of_cons, !elem_of_nil. tauto. }
  assert (Hdot : Forall (fun x => dotall f || negb (x =? 10) = true) (x :: v)).
  { eapply Forall_impl; [exact Hv |]. cbn beta. intros c ->. apply orb_true_r. }
  rewrite (on_message_accepted f self _ _ w
             (pattern_accepts_argument f ws kw ws' x v Hne Hws Hkw Hne' Hws' Hx Hdot)).
  rewrite (on_message_accepted f self _ _ w
             (pattern_accepts_keyword f ws kw Hne Hws Hkw)).
  unfold groupdict. cbn [group]. 
  repeat (destruct (decide _) as [Heq | Hneq];
          [try (exfalso; revert Heq; vm_compute; discriminate)
          | try (exfalso; apply Hneq; reflexivity)]).
  py_unfold.
  rewrite (execute_ignores_rest (Some kw) (Some (x :: v)) None).
  - reflexivity.
  - cbn [default from_option id]. rewrite (keyword_is_stripped kw Hkw). exact Hin.
Qed.

(** X22. The text after Ask or Guess reaches the handler stripped of the
    white space around it, and is never empty there: the first character
    is kept and only trailing white space goes. *)
Theorem text_reaches_question_and_guess f self cs api_url api_key ws ws' x v w :
  context_ok self cs api_url api_key ->
  ws <> [] ->
  Forall (fun x => isspace x = true) ws ->
  ws' <> [] ->
  Forall (fun x => isspace x = true) ws' ->
  isspace x = false ->
  Forall (fun x => negb (x =? 10) = true) (x :: v) ->
  on_message http_post lower f self (u "/hgt" ++ ws ++ kw_question ++ ws' ++ x :: v) w
  = (r ← _handle_question http_post (group_id_for cs) (x :: rstrip v) api_url
           api_key (model_of self) (temperature_of self);
     mret (Some r)) (ensured (group_id_for cs) w)
  /\ on_message http_post lower f self (u "/hgt" ++ ws ++ kw_guess ++ ws' ++ x :: v) w
     = (r ← _handle_guess http_post lower (group_id_for cs) (x :: rstrip v) api_url
              api_key (model_of self) (temperature_of self);
        mret (Some r)) (ensured (group_id_for cs) w).
Proof.
  intros Hctx Hne Hws Hne' Hws' Hx Hv.
  assert (Hdot : Forall (fun x => dotall f || negb (x =? 10) = true) (x :: v)).
  { eapply Forall_impl; [exact Hv |]. cbn beta. intros c ->. apply orb_true_r. }
  assert (Hq : kw_question ∈ keywords)
    by apply list_elem_of_further, list_elem_of_here.
  assert (Hg : kw_guess ∈ keywords)
    by (do 3 apply list_elem_of_further; apply list_elem_of_here).
  split.
  - etrans;
      [exact (on_message_accepted f self _ _ w
                (pattern_accepts_argument f ws kw_question ws' x v Hne Hws Hq Hne' Hws' Hx
                   Hdot)) |].
    py_unfold.
    rewrite (execute_question http_post lower _ cs api_url api_key).
    + unfold rest_of, groupdict.
      cbn [matched_groups g_rest group default from_option id].
      destruct (decide (u "rest" = u "rest")) as [_ | Hneq];
        [| destruct Hneq; reflexivity].
      cbn [default from_option id].
      rewrite (strip_cons_nonspace x v Hx). reflexivity.
    + exact Hctx.
    + vm_compute. reflexivity.
    + unfold rest_of, groupdict.
      cbn [matched_groups g_rest group default from_option id].
      destruct (decide (u "rest" = u "rest")) as [_ | Hneq];
        [| destruct Hneq; reflexivity].
      cbn [default from_option id].
      rewrite (strip_cons_nonspace x v Hx). discriminate.
  - etrans;
      [exact (on_message_accepted f self _ _ w
                (pattern_accepts_argument f ws kw_guess ws' x v Hne Hws Hg Hne' Hws' Hx
                   Hdot)) |].
    py_unfold.
    rewrite (execute_guess http_post lower _ cs api_url api_key).
    + unfold rest_of, groupdict.
      cbn [matched_groups g_rest group default from_option id].
      destruct (decide (u "rest" = u "rest")) as [_ | Hneq];
        [| destruct Hneq; reflexivity].
      cbn [default from_option id].
      rewrite (strip_cons_nonspace x v Hx). reflexivity.
    + exact Hctx.
    + vm_compute. reflexivity.
    + unfold rest_of, groupdict.
      cbn [matched_groups g_rest group default from_option id].
      destruct (decide (u "rest" = u "rest")) as [_ | Hneq];
        [| destruct Hneq; reflexivity].
      cbn [default from_option id].
      rewrite (strip_cons_nonspace x v Hx). discriminate.
Qed.

End Messages.

(** ** Concrete runs of the further properties *)

Lemma context_checks_reject_witness :
  execute net_down ascii_lower
    {| matched_groups := None; chat_stream := None; message_chat_stream := None;
       cfg := sample_cfg |} initial_world
  = (Returned (false, u "缺少chat_stream", true),
     said (u "❌ 无法获取聊天上下文信息") initial_world)
  /\ execute net_down ascii_lower
       {| matched_groups := None; chat_stream := Some sample_stream;
          message_chat_stream := None;
          cfg := {| plugin_enabled := Some false; llm_api_url := Some sample_url;
                    llm_api_key := Some sample_key; llm_model := None;
                    llm_temperature := None |} |} initial_world
     = (Returned (false, u "插件未启用", true), said (u "❌ 插件已被禁用") initial_world)
  /\ execute net_down ascii_lower
       {| matched_groups := None; chat_stream := Some sample_stream;
          message_chat_stream := None;
          cfg := {| plugin_enabled := None; llm_api_url := Some sample_url;
                    llm_api_key := None; llm_model := None;
                    llm_temperature := None |} |} initial_world
     = (Returned (false, u "API配置错误", true),
        said (u "❌ LLM API 配置不完整") initial_world).
Proof.
  split; [| split].
  - exact (proj1 (context_checks_reject net_down ascii_lower
                    {| matched_groups := None; chat_stream := None;
                       message_chat_stream := None; cfg := sample_cfg |}
                    initial_world) eq_refl).
  - exact (proj1 (proj2 (context_checks_reject net_down ascii_lower
                           {| matched_groups := None; chat_stream := Some sample_stream;
                              message_chat_stream := None;
                              cfg := {| plugin_enabled := Some false;
                                        llm_api_url := Some sample_url;
                                        llm_api_key := Some sample_key;
                                        llm_model := None;
                                        llm_temperature := None |} |}
                           initial_world))
             (ex_intro _ sample_stream eq_refl) eq_refl).
  - exact (proj2 (proj2 (context_checks_reject net_down ascii_lower
                           {| matched_groups := None; chat_stream := Some sample_stream;
                              message_chat_stream := None;
                              cfg := {| plugin_enabled := None;
                                        llm_api_url := Some sample_url;
                                        llm_api_key := None;
                                        llm_model := None;
                                        llm_temperature := None |} |}
                           initial_world))
             (ex_intro _ sample_stream eq_refl) eq_refl (or_intror eq_refl)).
Defined.

Lemma sessions_isolated_and_kept_witness :
  game_states
    (execute net_down ascii_lower (sample_command (Some kw_exit) None)
       (playing (u "Q") (u "A") 0)).2 !! u "g2"
  = game_states (playing (u "Q") (u "A") 0) !! u "g2"
  /\ is_Some
       (game_states
          (execute net_down ascii_lower (sample_command (Some kw_exit) None)
             (playing (u "Q") (u "A") 0)).2 !! g1).
Proof.
  destruct (sessions_isolated_and_kept net_down ascii_lower
              (sample_command (Some kw_exit) None) (playing (u "Q") (u "A") 0))
    as [Hother Hkept].
  split.
  - apply Hother. intros cs Hcs Heq.
    injection Hcs as <-. vm_compute in Heq. discriminate Heq.
  - apply Hkept. rewrite playing_lookup. eexists. reflexivity.
Defined.

Lemma keywords_route_to_handlers_witness :
  execute (net_says (u "try the door")) ascii_lower
    (sample_command (Some kw_hint) (Some (u "now"))) (playing (u "Q") (u "A") 0)
  = _handle_hint (net_says (u "try the door")) (group_id_for sample_stream)
      sample_url sample_key
      (model_of (sample_command (Some kw_hint) (Some (u "now"))))
      (temperature_of (sample_command (Some kw_hint) (Some (u "now"))))
      (ensured (group_id_for sample_stream) (playing (u "Q") (u "A") 0)).
Proof.
  destruct (keywords_route_to_handlers (net_says (u "try the door")) ascii_lower
              (sample_command (Some kw_hint) (Some (u "now"))) sample_stream
              sample_url sample_key (playing (u "Q") (u "A") 0)
              (sample_context_ok _ _))
    as (_ & _ & Hhint & _).
  apply Hhint. vm_compute. reflexivity.
Defined.

Lemma help_and_puzzle_only_read_witness :
  execute net_down ascii_lower (sample_command (Some kw_help) None)
    (playing (u "Q") (u "A") 0)
  = (Returned (true, u "显示帮助", true),
     said command_help (ensured (group_id_for sample_stream)
                          (playing (u "Q") (u "A") 0)))
  /\ execute net_down ascii_lower (sample_command (Some kw_puzzle) None)
       (playing (u "a man walks in") (u "A") 0)
     = (Returned (true, u "查看汤面", true),
        said (u "🍲 当前海龟汤题目:
a man walks in") (playing (u "a man walks in") (u "A") 0)).
Proof.
  split.
  - destruct (help_and_puzzle_only_read net_down ascii_lower
                (sample_command (Some kw_help) None) sample_stream
                sample_url sample_key (playing (u "Q") (u "A") 0)
                (sample_context_ok _ _))
      as (Hhelp & _).
    apply Hhelp. vm_compute. reflexivity.
  - destruct (help_and_puzzle_only_read net_down ascii_lower
                (sample_command (Some kw_puzzle) None) sample_stream
                sample_url sample_key (playing (u "a man walks in") (u "A") 0)
                (sample_context_ok _ _))
      as (_ & Hpuzzle & _).
    destruct (Hpuzzle ltac:(vm_compute; reflexivity) _ (playing_lookup _ _ _) eq_refl)
      as (_ & _ & Hquestion).
    rewrite (Hquestion (u "a man walks in") eq_refl).
    vm_compute. reflexivity.
Defined.

Lemma reveal_finishes_game_witness :
  exists reply w',
    execute net_down ascii_lower (sample_command (Some kw_reveal) None)
      (playing (u "Q") (u "A") 1)
    = (Returned (true, u "已揭秘", true), w')
    /\ sent w' = [reply]
    /\ contains (u "A") reply = true
    /\ http_log w' = []
    /\ game_states w' !! g1
       = Some {| current_question := Some (u "Q"); current_answer := Some (u "A");
                 hints_used := Some 1%Z; game_active := Some false;
                 guess_history := Some []; game_over := Some true |}.
Proof.
  destruct (reveal_finishes_game net_down ascii_lower
              (sample_command (Some kw_reveal) None) sample_stream
              sample_url sample_key (playing (u "Q") (u "A") 1)
              (sample_context_ok _ _)) as [Hreveal _].
  - vm_compute. reflexivity.
  - destruct (Hreveal _ (playing_lookup _ _ _) eq_refl)
      as (reply & w' & Heq & Hsent & Hin & Hlog & Hst & _).
    exists reply, w'. repeat (split; [assumption |]). exact Hst.
Defined.

Lemma in_game_actions_need_a_game_witness :
  execute net_down ascii_lower (sample_command (Some kw_clues) None) initial_world
  = (Returned (false, u "无游戏", true),
     said no_game (ensured (group_id_for sample_stream) initial_world)).
Proof.
  apply (in_game_actions_need_a_game net_down ascii_lower
           (sample_command (Some kw_clues) None) sample_stream sample_url sample_key
           initial_world (sample_context_ok _ _)).
  - vm_compute. reflexivity.
  - right. left. vm_compute. reflexivity.
Defined.

Lemma question_recorded_and_relayed_witness :
  exists out w',
    _handle_question (net_says (u " no ")) g1 (u "was it dark?")
      sample_url sample_key sample_model (7 # 10)%Q
      (playing (u "a man walks in") (u "the twin did it") 0)
    = (Returned (true, u "问题回答完成", true), w')
    /\ out = u "no"
    /\ http_log w'
       = [llm_request (u "
你是一个海龟汤游戏专家。
当前题目: a man walks in
当前答案: the twin did it
用户提问: was it dark?
请用简短的回答回应玩家，不要透露答案。
") sample_url sample_key sample_model (7 # 10)%Q]
    /\ game_states w' !! g1
       = Some {| current_question := Some (u "a man walks in");
                 current_answer := Some (u "the twin did it");
                 hints_used := Some 0%Z; game_active := Some true;
                 guess_history := Some [ItemDict (u "question") (u "was it dark?")];
                 game_over := Some false |}
    /\ sent w' = [u "❓ 你问: was it dark?
💡 回答: no"].
Proof.
  destruct (question_recorded_and_relayed (net_says (u " no "))
              (playing (u "a man walks in") (u "the twin did it") 0) g1 _
              (u "was it dark?") sample_url sample_key sample_model (7 # 10)%Q
              (playing_lookup _ _ _) eq_refl)
    as (out & w' & Heq & _ & Hout & _ & _ & Hprompt & Hst & Hsent).
  exists out, w'. split; [exact Heq |].
  split; [rewrite Hout; vm_compute; reflexivity |].
  split.
  { destruct (Hprompt (u "a man walks in") (u "the twin did it") eq_refl eq_refl)
      as [Hlog _].
    rewrite Hlog. vm_compute. reflexivity. }
  split; [exact Hst |].
  rewrite Hsent, Hout. vm_compute. reflexivity.
Defined.

Lemma hint_used_up_on_failure_witness :
  exists w',
    _handle_hint net_down g1 sample_url sample_key sample_model (7 # 10)%Q
      (playing (u "a man walks in") (u "the twin did it") 1)
    = (Returned (true, u "提示完成", true), w')
    /\ (exists st', game_states w' !! g1 = Some st' /\ hints_used st' = Some 2%Z)
    /\ sent w' = [u "💡 提示 (2/3): "]
    /\ http_log w'
       = [llm_request (u "
你是一个海龟汤游戏专家。
题目: a man walks in
答案: the twin did it
请提供一个不直接透露答案的提示。
") sample_url sample_key sample_model (7 # 10)%Q].
Proof.
  destruct (hint_used_up_on_failure net_down
              (playing (u "a man walks in") (u "the twin did it") 1) g1 _
              sample_url sample_key sample_model (7 # 10)%Q ClientError
              (playing_lookup _ _ _) eq_refl)
    as (w' & Heq & Hst & Hsent & _ & _ & Hprompt).
  - cbn. lia.
  - reflexivity.
  - exists w'. split; [exact Heq |]. split; [exact Hst |].
    split; [rewrite Hsent; vm_compute; reflexivity |].
    rewrite (Hprompt (u "a man walks in") (u "the twin did it") eq_refl eq_refl).
    vm_compute. reflexivity.
Defined.

Lemma guess_recorded_witness :
  (exists st' w',
     _handle_guess (net_says no) ascii_lower g1 (u "the twin")
       sample_url sample_key sample_model (7 # 10)%Q
       (playing (u "a man walks in") (u "the twin did it") 0)
     = (Returned (true, u "猜谜完成", true), w')
     /\ http_log w'
        = [llm_request (u "
你是海龟汤游戏专家。
题目: a man walks in
答案: the twin did it
用户猜测: the twin
请仅回答 是/不是/无关。
") sample_url sample_key sample_model (7 # 10)%Q]
     /\ game_states w' !! g1 = Some st'
     /\ guess_history st' = Some [ItemStr (u "the twin")])
  /\ exists reason text,
       _handle_guess (net_says no) ascii_lower g1 (u "the twin")
         sample_url sample_key sample_model (7 # 10)%Q
         (stored g1 exited initial_world)
       = (Returned (false, reason, true),
          said text (stored g1 exited initial_world)).
Proof.
  split.
  - destruct (guess_recorded (net_says no) ascii_lower
                (playing (u "a man walks in") (u "the twin did it") 0) g1 _
                (u "the twin") sample_url sample_key sample_model (7 # 10)%Q
                (playing_lookup _ _ _)) as [Hplay _].
    destruct (Hplay eq_refl)
      as (st' & w' & Heq & _ & _ & _ & Hprompt & Hst & Hhist & _).
    exists st', w'. split; [exact Heq |].
    split.
    { destruct (Hprompt (u "a man walks in") (u "the twin did it") eq_refl eq_refl)
        as [Hlog _].
      rewrite Hlog. vm_compute. reflexivity. }
    split; [exact Hst | exact Hhist].
  - destruct (guess_recorded (net_says no) ascii_lower
                (stored g1 exited initial_world) g1 exited (u "the twin")
                sample_url sample_key sample_model (7 # 10)%Q) as [_ Hidle].
    + apply lookup_insert_eq.
    + apply Hidle. reflexivity.
Defined.

Lemma clues_raise_after_a_guess_witness :
  _handle_clues (net_says no) g1 sample_url sample_key sample_model (7 # 10)%Q
    (_handle_guess (net_says no) ascii_lower g1 (u "the twin")
       sample_url sample_key sample_model (7 # 10)%Q (playing (u "Q") (u "A") 0)).2
  = (Raised TypeError,
     (_handle_guess (net_says no) ascii_lower g1 (u "the twin")
        sample_url sample_key sample_model (7 # 10)%Q (playing (u "Q") (u "A") 0)).2).
Proof.
  apply (clues_raise_after_a_guess (net_says no) ascii_lower
           (playing (u "Q") (u "A") 0) g1 _ (u "the twin")
           sample_url sample_key sample_model (7 # 10)%Q (playing_lookup _ _ _)).
  reflexivity.
Defined.

Lemma clues_list_the_questions_witness :
  exists prompt out w',
    _handle_clues (net_says (u "1. dark")) g1 sample_url sample_key sample_model
      (7 # 10)%Q
      (stored g1 (append_history (ItemDict (u "question") (u "was it dark?"))
                    (new_game (u "Q") (u "A"))) initial_world)
    = (Returned (true, u "线索整理完成", true), w')
    /\ contains (u "was it dark?") prompt = true
    /\ http_log w'
       = [llm_request prompt sample_url sample_key sample_model (7 # 10)%Q]
    /\ sent w' = [u "📝 线索整理:
" ++ out].
Proof.
  destruct (clues_list_the_questions (net_says (u "1. dark"))
              (stored g1 (append_history (ItemDict (u "question") (u "was it dark?"))
                            (new_game (u "Q") (u "A"))) initial_world)
              g1 _ sample_url sample_key sample_model (7 # 10)%Q
              (lookup_insert_eq _ _ _) eq_refl)
    as (prompt & out & w' & Heq & _ & Hlog & Hin & _ & Hsent).
  - repeat constructor.
  - exists prompt, out, w'. split; [exact Heq |].
    split; [apply (Hin (ItemDict (u "question") (u "was it dark?"))),
                  list_elem_of_here |].
    split; [exact Hlog | exact Hsent].
Defined.

Lemma start_builds_the_puzzle_witness :
  exists question answer w',
    _start_new_game (net_says (u " a story ")) g1 sample_url sample_key sample_model
      (7 # 10)%Q None initial_world
    = (Returned (true, u "新题目生成完成", true), w')
    /\ question = u "a story" /\ answer = u "a story"
    /\ game_states w' !! g1 = Some (new_game question answer).
Proof.
  destruct (start_builds_the_puzzle (net_says (u " a story ")) initial_world g1
              sample_url sample_key sample_model (7 # 10)%Q None) as [_ Hstart].
  destruct (Hstart eq_refl) as (q & a & w' & Heq & _ & Hq & _ & Ha & Hst).
  exists q, a, w'. split; [exact Heq |].
  split; [rewrite Hq; vm_compute; reflexivity |].
  split; [rewrite Ha; vm_compute; reflexivity | exact Hst].
Defined.

Lemma question_without_game_starts_one_witness :
  _handle_question net_down g1 (u "was it dark?")
    sample_url sample_key sample_model (7 # 10)%Q (stored g1 exited initial_world)
  = _start_new_game net_down g1 sample_url sample_key sample_model (7 # 10)%Q None
      (stored g1 exited initial_world).
Proof.
  apply (question_without_game_starts_one net_down
           (stored g1 exited initial_world) g1 exited (u "was it dark?")
           sample_url sample_key sample_model (7 # 10)%Q
           (lookup_insert_eq _ _ _) eq_refl).
Defined.

Lemma after_a_correct_guess_witness :
  _handle_guess (net_says (u "是")) ascii_lower g1 (u "again")
    sample_url sample_key sample_model (7 # 10)%Q
    (_handle_guess (net_says (u "是")) ascii_lower g1 (u "the twin")
       sample_url sample_key sample_model (7 # 10)%Q (playing (u "Q") (u "A") 0)).2
  = (Returned (false, u "游戏已结束", true),
     said game_ended
       (_handle_guess (net_says (u "是")) ascii_lower g1 (u "the twin")
          sample_url sample_key sample_model (7 # 10)%Q
          (playing (u "Q") (u "A") 0)).2).
Proof.
  destruct (after_a_correct_guess (net_says (u "是")) ascii_lower
              (playing (u "Q") (u "A") 0) g1 _ (u "the twin")
              sample_url sample_key sample_model (7 # 10)%Q
              (playing_lookup _ _ _) eq_refl) with (w' :=
              (_handle_guess (net_says (u "是")) ascii_lower g1 (u "the twin")
                 sample_url sample_key sample_model (7 # 10)%Q
                 (playing (u "Q") (u "A") 0)).2)
    as (_ & Hguess & _).
  - vm_compute. reflexivity.
  - reflexivity.
  - apply Hguess.
Defined.

Lemma reachable_session_shapes_witness :
  session_shape (new_game [] []).
Proof.
  apply (reachable_session_shapes net_down ascii_lower
           (execute net_down ascii_lower (sample_command None None) initial_world).2
           (reach_execute net_down ascii_lower initial_world (sample_command None None)
              (reach_init net_down ascii_lower)) g1).
  vm_compute. reflexivity.
Defined.

Lemma accepted_message_shape_witness :
  exists p ws kw tail,
    u "/hgt 问题 is it dark" = p ++ ws ++ kw ++ tail
    /\ p = u "/hgt"
    /\ ws <> []
    /\ kw ∈ keywords
    /\ argument_shape {| ignorecase := false; dotall := false |} tail
         (Some (u "is it dark")).
Proof.
  destruct (accepted_message_shape {| ignorecase := false; dotall := false |}
              (u "/hgt 问题 is it dark")
              [(u "rest", u "is it dark"); (u "action", kw_question)])
    as (p & ws & kw & tail & Htext & _ & Hp & Hne & _ & Hkw & _ & Hrest).
  - vm_compute. reflexivity.
  - exists p, ws, kw, tail. split; [exact Htext |].
    split; [apply Hp; reflexivity |]. split; [exact Hne |].
    split; [exact Hkw | exact Hrest].
Defined.

Lemma well_formed_messages_are_accepted_witness :
  groupdict <$> re_match {| ignorecase := false; dotall := false |} command_pattern
                  (u "/hgt" ++ [32; 9] ++ kw_hint)
  = Some {| g_action := Some kw_hint; g_rest := None |}
  /\ groupdict <$> re_match {| ignorecase := false; dotall := false |} command_pattern
                     (u "/hgt" ++ [32; 9] ++ kw_hint ++ [32] ++ 97 :: u "b c")
     = Some {| g_action := Some kw_hint; g_rest := Some (97 :: u "b c") |}.
Proof.
  destruct (well_formed_messages_are_accepted
              {| ignorecase := false; dotall := false |} [32; 9] kw_hint)
    as [Hkw Harg].
  - discriminate.
  - repeat constructor.
  - apply list_elem_of_here.
  - split; [exact Hkw |]. apply Harg.
    + discriminate.
    + repeat constructor.
    + reflexivity.
    + repeat constructor.
Defined.

Lemma text_after_other_keywords_is_ignored_witness :
  on_message net_down ascii_lower {| ignorecase := false; dotall := false |}
    (sample_command None None) (u "/hgt" ++ [32] ++ kw_exit ++ [32] ++ 97 :: u "b")
    (playing (u "Q") (u "A") 0)
  = on_message net_down ascii_lower {| ignorecase := false; dotall := false |}
      (sample_command None None) (u "/hgt" ++ [32] ++ kw_exit)
      (playing (u "Q") (u "A") 0).
Proof.
  apply (text_after_other_keywords_is_ignored net_down ascii_lower).
  - discriminate.
  - repeat constructor.
  - do 4 apply list_elem_of_further. apply list_elem_of_here.
  - discriminate.
  - repeat constructor.
  - reflexivity.
  - repeat constructor.
Defined.

Lemma text_reaches_question_and_guess_witness :
  on_message (net_says no) ascii_lower {| ignorecase := false; dotall := false |}
    (sample_command None None)
    (u "/hgt" ++ [32] ++ kw_guess ++ [32] ++ 97 :: [98; 32])
    (playing (u "Q") (u "A") 0)
  = (r ← _handle_guess (net_says no) ascii_lower (group_id_for sample_stream)
           (97 :: rstrip [98; 32]) sample_url sample_key
           (model_of (sample_command None None))
           (temperature_of (sample_command None None));
     mret (Some r)) (ensured (group_id_for sample_stream) (playing (u "Q") (u "A") 0)).
Proof.
  destruct (text_reaches_question_and_guess (net_says no) ascii_lower
              {| ignorecase := false; dotall := false |}
              (sample_command None None) sample_stream sample_url sample_key
              [32] [32] 97 [98; 32] (playing (u "Q") (u "A") 0)
              (sample_context_ok _ _)) as [_ Hguess].
  - discriminate.
  - repeat constructor.
  - discriminate.
  - repeat constructor.
  - reflexivity.
  - repeat constructor.
  - exact Hguess.
Defined.
